(** * readcompressability: lock-step FASTQ reading and per-read zlib ratio

    A shallow embedding of [readcompressibility.go].  The program opens
    the positional arguments as line-oriented inputs, advances all of
    them one physical line per iteration of its main loop, feeds the
    sequence lines of a read into a fresh zlib writer and prints one
    tab-separated row per read.

    Conventions of the embedding:
    - a Go [string] is a [string] (a sequence of 8-bit characters), a
      [bytes.Buffer] is a [list byte];
    - a [*bufio.Scanner] is the list of lines it has still to deliver;
    - Go's [int] counters ([line_num], [read_count], [full_len]) are [Z];
      they count consumed lines and bytes, so they stay far below 2^63
      on every input a machine can hold, and no wrap-around is written;
    - [float64] is [spec_float] at precision 53 and exponent bound 1024,
      with the division of [SpecFloat];
    - the DEFLATE encoder of [compress/flate] is a parameter of the
      development; the zlib container around it (RFC 1950 header and
      Adler-32 trailer, as [compress/zlib] writes them) is modelled. *)

From Stdlib Require Import ZArith List Bool Lia.
From Stdlib.Strings Require Import String Ascii Byte.
From Stdlib Require Import DecimalString DecimalZ DecimalPos SpecFloat.
Import ListNotations.

Local Open Scope string_scope.
Local Open Scope list_scope.
Local Open Scope Z_scope.

(** ** Text helpers: the pieces of [strings] and [fmt] the program uses *)

Module Text.

Definition LF : string := String (ascii_of_nat 10) EmptyString.

(** [len(s)] *)
Definition len (s : string) : Z := Z.of_nat (String.length s).

(** [strings.HasPrefix(s, pre)] *)
Definition HasPrefix (s pre : string) : bool := String.prefix pre s.

(** [s[1:len(s)]]; only evaluated on a non-empty [s]. *)
Definition from1 (s : string) : string :=
  match s with
  | EmptyString => EmptyString
  | String _ rest => rest
  end.

(** [strings.Split(s, sep)] for a one-byte separator: the pieces of [s]
    between the occurrences of [sep]; never empty. *)
Fixpoint Split (s : string) (sep : ascii) : list string :=
  match s with
  | EmptyString => [EmptyString]
  | String c rest =>
      if Ascii.eqb c sep then EmptyString :: Split rest sep
      else match Split rest sep with
           | [] => [String c EmptyString]
           | piece :: pieces => String c piece :: pieces
           end
  end.

(** The verb [%d] on an [int]. *)
Definition fmt_d (n : Z) : string := NilZero.string_of_int (Z.to_int n).

(** The bytes of a string, as [Write] receives them. *)
Definition bytes_of (s : string) : list byte := list_byte_of_string s.




End Text.

(** ** float64 and the verb [%0.4f] *)

Module Float64.

Definition prec : Z := 53.
Definition emax : Z := 1024.

(** [float64(n)] for an [int] *)
Definition of_int (n : Z) : spec_float := binary_normalize prec emax n 0 false.

(** [x / y] on [float64] *)
Definition div (x y : spec_float) : spec_float := SFdiv prec emax x y.







End Float64.

(** ** The zlib container of [compress/zlib] *)

Module Zlib.

(** Adler-32 (RFC 1950): two sums modulo 65521. *)
Definition adler_mod : Z := 65521.

Definition adler32_step (ab : Z * Z) (x : byte) : Z * Z :=
  let a := (fst ab + Z.of_nat (Byte.to_nat x)) mod adler_mod in
  (a, (snd ab + a) mod adler_mod).

Definition adler32 (data : list byte) : Z :=
  let '(a, b) := fold_left adler32_step data (1, 0) in
  Z.lor (Z.shiftl b 16) a.

Definition byte_of_Z (n : Z) : byte :=
  match Byte.of_nat (Z.to_nat (n mod 256)) with
  | Some b => b
  | None => x00
  end.

(** [binary.BigEndian.PutUint32] *)
Definition be32 (n : Z) : list byte :=
  [byte_of_Z (Z.shiftr n 24); byte_of_Z (Z.shiftr n 16);
   byte_of_Z (Z.shiftr n 8); byte_of_Z n].

(** CMF/FLG for the default level and no preset dictionary. *)
Definition header : list byte := [x78; x9c].

(** The state of a [zlib.Writer]: whether the header went out, the bytes
    accepted so far, and whether the compressor is closed.  The encoder
    is taken to hold its output until [Close]; the program looks at the
    sink only after [Close]. *)
Record Writer : Type := {
  wroteHeader : bool;
  accepted : list byte;
  closed : bool
}.

Definition NewWriter : Writer :=
  {| wroteHeader := false; accepted := []; closed := false |}.

Section Encoder.

(** The raw DEFLATE stream of [compress/flate] at the default level. *)
Variable deflate : list byte -> list byte.

Definition with_header (z : Writer) (sink : list byte) : list byte :=
  if wroteHeader z then sink else sink ++ header.

(** [z.Write(p)] into [sink]; the error of a closed compressor is dropped
    by the caller. *)
Definition Write (z : Writer) (sink p : list byte) : Writer * list byte :=
  let sink' := with_header z sink in
  if closed z then
    ({| wroteHeader := true; accepted := accepted z; closed := true |}, sink')
  else
    ({| wroteHeader := true; accepted := accepted z ++ p; closed := false |},
     sink').

(** [z.Close()]: header if still due, the rest of the DEFLATE stream,
    then the checksum. *)
Definition Close (z : Writer) (sink : list byte) : Writer * list byte :=
  let sink' := with_header z sink in
  let body := if closed z then [] else deflate (accepted z) in
  ({| wroteHeader := true; accepted := accepted z; closed := true |},
   sink' ++ body ++ be32 (adler32 (accepted z))).

(** The whole container for [data]. *)
Definition container (data : list byte) : list byte :=
  header ++ deflate data ++ be32 (adler32 data).

End Encoder.

(** A DEFLATE encoder that emits stored blocks only (RFC 1951, 3.2.4):
    a valid instance of the parameter, used where a closed example needs
    some encoder.  [compress/flate] at the default level produces other,
    usually shorter, streams; no statement below depends on which. *)
Definition le16 (n : Z) : list byte := [byte_of_Z n; byte_of_Z (Z.shiftr n 8)].

Definition max_stored : nat := Z.to_nat 65535.

Fixpoint stored_blocks (fuel : nat) (data : list byte) : list byte :=
  match fuel with
  | O => []
  | S fuel' =>
      let chunk := firstn max_stored data in
      let rest := skipn max_stored data in
      let n := Z.of_nat (List.length chunk) in
      let final := match rest with [] => true | _ => false end in
      [if final then x01 else x00] ++ le16 n ++ le16 (65535 - n) ++ chunk
        ++ (if final then [] else stored_blocks fuel' rest)
  end.

Definition stored (data : list byte) : list byte :=
  stored_blocks (S (List.length data)) data.

End Zlib.

(** ** The program *)

Module Reader.

Import Text.

(** The flags of the command line. *)
Record Args : Type := {
  OutFilename : string;
  Limit : Z;
  CheckNames : bool
}.

(** A [*bufio.Scanner] over an input: the lines it has still to return.
    [Scan] gives up at the end of the input and at a line too long for
    its buffer alike; the list ends where the scanner does. *)
Definition Scanner : Type := list string.

(** [sc.Scan()] followed by [sc.Text()]. *)
Definition Scan (sc : Scanner) : option (string * Scanner) :=
  match sc with
  | [] => None
  | line :: rest => Some (line, rest)
  end.

(** The three [fmt.Errorf] sites of the loop, with their arguments. *)
Inductive error : Type :=
| MalformedRecord (line_num : Z) (line : string)
| NameMismatch (read_name : string) (line_num : Z) (input : Z) (name : string)
| Desync (i : Z).

(** The text of the error, as [fmt.Errorf] builds it. *)
Definition Error (e : error) : string :=
  match e with
  | MalformedRecord n line =>
      "Line " ++ fmt_d n ++ " should be a fastq header line, got: "
        ++ line ++ LF
  | NameMismatch rn n input name =>
      "expecting read " ++ rn ++ " on line " ++ fmt_d n ++ " in input "
        ++ fmt_d input ++ ", got " ++ name
  | Desync i =>
      "Expecting scanner " ++ fmt_d i ++ " to be able to scan" ++ LF
  end.

(** How the closure of [main] ends: [return nil], [return err], or a
    nil-pointer dereference in a method of [*zlib.Writer]. *)
Inductive outcome : Type :=
| Done
| Failed (e : error)
| NilDeref.

(** The arguments of one [fmt.Fprintf(output, ...)] call. *)
Record row : Type := {
  row_name : string;
  row_full_len : Z;
  row_compressed_len : Z;
  row_r : spec_float
}.


(** The variables the loop works on: the scanners, the two counters of
    [main], the three variables of the closure, [full_len] of the current
    iteration, and what has been written to [output]. *)
Record state : Type := {
  inputScanners : list Scanner;
  line_num : Z;
  read_count : Z;
  read_name : string;
  read_buf : list byte;
  zwriter : option Zlib.Writer;
  full_len : Z;
  output : list row
}.

Definition initial (inputs : list Scanner) : state :=
  {| inputScanners := inputs; line_num := 0; read_count := 0;
     read_name := ""; read_buf := []; zwriter := None; full_len := 0;
     output := [] |}.

(** Result of a piece of the loop body: go on, or leave the closure. *)
Inductive flow (A : Type) : Type :=
| Next (a : A)
| Return (o : outcome).
Arguments Next {A} a.
Arguments Return {A} o.

Definition name_of (line : string) : string :=
  hd "" (Split (from1 line) " "%char).

Section Run.

Variable deflate : list byte -> list byte.
Variable args : Args.

(** The body of [if inputScanners[i].Scan() { ... }] for the line read
    from input [i]. *)
Definition on_line (i : Z) (line : string) (st : state) : flow state :=
  if Z.rem (line_num st) 4 =? 0 then
    if negb (HasPrefix line "@") then
      Return (Failed (MalformedRecord (line_num st) line))
    else
      let name := name_of line in
      if i =? 0 then
        Next {| inputScanners := inputScanners st;
                line_num := line_num st; read_count := read_count st;
                read_name := name; read_buf := [];
                zwriter := Some Zlib.NewWriter;
                full_len := full_len st; output := output st |}
      else if CheckNames args && negb (name =? read_name st)%string then
        Return (Failed (NameMismatch (read_name st) (line_num st) (i + 1) name))
      else Next st
  else if Z.rem (line_num st) 4 =? 1 then
    match zwriter st with
    | None => Return NilDeref
    | Some z =>
        let '(z', buf) := Zlib.Write z (read_buf st) (bytes_of (line ++ LF)) in
        Next {| inputScanners := inputScanners st;
                line_num := line_num st; read_count := read_count st;
                read_name := read_name st; read_buf := buf;
                zwriter := Some z';
                full_len := full_len st + len line; output := output st |}
    end
  else Next st.

(** [for i := 0; i < len(fq); i++ { ... }] from index [i] on, over the
    scanners [scs] of the inputs [i], [i+1], ...; returns the scanners as
    the pass leaves them. *)
Fixpoint scan_from (i : Z) (scs : list Scanner) (st : state)
  : flow (list Scanner * state) :=
  match scs with
  | [] => Next ([], st)
  | sc :: rest =>
      match Scan sc with
      | Some (line, sc') =>
          match on_line i line st with
          | Return o => Return o
          | Next st' =>
              match scan_from (i + 1) rest st' with
              | Return o => Return o
              | Next (rest', st'') => Next (sc' :: rest', st'')
              end
          end
      | None =>
          if i =? 0 then Return Done else Return (Failed (Desync i))
      end
  end.

(** The block after the inner loop: close, measure, print, count. *)
Definition finish_line (st : state) : flow state :=
  if Z.rem (line_num st) 4 =? 1 then
    match zwriter st with
    | None => Return NilDeref
    | Some z =>
        let '(z', buf) := Zlib.Close deflate z (read_buf st) in
        let compressed_len := Z.of_nat (List.length buf) in
        let r := Float64.div (Float64.of_int (full_len st))
                   (Float64.of_int compressed_len) in
        Next {| inputScanners := inputScanners st;
                line_num := line_num st + 1;
                read_count := read_count st + 1;
                read_name := read_name st; read_buf := buf;
                zwriter := Some z'; full_len := full_len st;
                output := output st ++
                  [{| row_name := read_name st;
                      row_full_len := full_len st;
                      row_compressed_len := compressed_len;
                      row_r := r |}] |}
    end
  else
    Next {| inputScanners := inputScanners st;
            line_num := line_num st + 1; read_count := read_count st;
            read_name := read_name st; read_buf := read_buf st;
            zwriter := zwriter st; full_len := full_len st;
            output := output st |}.

(** One iteration of [for { ... }]. *)
Definition iteration (st : state) : flow state :=
  if (0 <? Limit args) && (Limit args <=? read_count st) then Return Done
  else
    let st0 := {| inputScanners := inputScanners st;
                  line_num := line_num st; read_count := read_count st;
                  read_name := read_name st; read_buf := read_buf st;
                  zwriter := zwriter st; full_len := 0;
                  output := output st |} in
    match scan_from 0 (inputScanners st0) st0 with
    | Return o => Return o
    | Next (scs, st1) =>
        finish_line {| inputScanners := scs;
                       line_num := line_num st1;
                       read_count := read_count st1;
                       read_name := read_name st1;
                       read_buf := read_buf st1;
                       zwriter := zwriter st1; full_len := full_len st1;
                       output := output st1 |}
    end.

(** The loop, for at most [fuel] iterations; [None] when they do not
    suffice.  The state returned with the outcome is the one at the start
    of the iteration that left the closure: [line_num], [read_count] and
    [output], the variables that outlive the closure, do not change
    between that point and the [return]. *)
Fixpoint loop (fuel : nat) (st : state) : option (outcome * state) :=
  match fuel with
  | O => None
  | S fuel' =>
      match iteration st with
      | Return o => Some (o, st)
      | Next st' => loop fuel' st'
      end
  end.

(** The states at the top of the iterations the loop goes through. *)
Fixpoint visited (fuel : nat) (st : state) : list state :=
  match fuel with
  | O => []
  | S fuel' =>
      st :: match iteration st with
            | Return _ => []
            | Next st' => visited fuel' st'
            end
  end.

(** Two iterations more than the first input has lines always suffice
    (see [loop_enough]). *)
Definition enough (inputs : list Scanner) : nat :=
  S (S (List.length (hd [] inputs))).

Definition run (inputs : list Scanner) : option (outcome * state) :=
  loop (enough inputs) (initial inputs).

(** The rows a run printed, and how it ended. *)
Definition rows_of (res : option (outcome * state)) : list row :=
  match res with
  | Some (_, st) => output st
  | None => []
  end.

Definition outcome_of (res : option (outcome * state)) : option outcome :=
  option_map fst res.

End Run.

(** *** Opening the inputs *)

(** What the operating system offers: the lines of standard input, and
    for a path the lines of the file behind it (decompressed when the
    path ends in [.gz]) or nothing when it cannot be opened. *)
Record world : Type := {
  os_Stdin : list string;
  os_Open : string -> option (list string)
}.

(** [AmbiReader.Open] on a fresh reader.  Readers opened on the empty
    name would share the one standard input; that sharing is not
    modelled, and nothing below opens the empty name twice. *)
Definition AmbiReader_Open (w : world) (fn : string) : option Scanner :=
  if (fn =? "")%string then Some (os_Stdin w) else os_Open w fn.

(** The first loop of [main]: one reader per positional argument. *)
Fixpoint open_inputs (w : world) (fq : list string)
  : string + list Scanner :=
  match fq with
  | [] => inr []
  | fn :: rest =>
      match AmbiReader_Open w fn with
      | None => inl fn
      | Some sc =>
          match open_inputs w rest with
          | inl bad => inl bad
          | inr scs => inr (sc :: scs)
          end
      end
  end.

(** How the process ends: [log.Fatalf] on a path that does not open,
    otherwise the way the closure ended. *)
Inductive exit : Type :=
| OpenFailure (fn : string)
| Closure (res : option (outcome * state)).

Definition main (deflate : list byte -> list byte) (w : world)
    (args : Args) (fq : list string) : exit :=
  match open_inputs w fq with
  | inl fn => OpenFailure fn
  | inr inputs => Closure (run deflate args inputs)
  end.

End Reader.

(** ** What a run is expected to print *)

Module Lockstep.

Import Text Reader.

Section Expected.

Variable deflate : list byte -> list byte.

(** Line [m] (counted from 0) of an input. *)
Definition line_at (s : Scanner) (m : nat) : string := nth m s "".

(** The sequence lines of read [k], one per input, in input order. *)
Definition seq_lines (inputs : list Scanner) (k : nat) : list string :=
  map (fun s => line_at s (4 * k + 1)) inputs.

Definition raw_total (ls : list string) : Z :=
  fold_right (fun l acc => len l + acc) 0 ls.

Definition fed_bytes (ls : list string) : list byte :=
  List.concat (map (fun l => bytes_of (l ++ LF)) ls).

(** The row of read [k]: named after the header of input 0, measured on
    the sequence lines of all inputs. *)
Definition read_row (inputs : list Scanner) (k : nat) : row :=
  let ls := seq_lines inputs k in
  let L := raw_total ls in
  let C := Z.of_nat (List.length (Zlib.container deflate (fed_bytes ls))) in
  {| row_name := name_of (line_at (hd [] inputs) (4 * k));
     row_full_len := L;
     row_compressed_len := C;
     row_r := Float64.div (Float64.of_int L) (Float64.of_int C) |}.

(** Rows printed before iteration [m] starts: one per [j < m] with
    [j mod 4 = 1]. *)
Definition rows_before (m : nat) : nat := ((m + 2) / 4)%nat.

(** The state at the start of iteration [m] of a run on [inputs]. *)
Record Inv (inputs : list Scanner) (m : nat) (st : state) : Prop := {
  inv_scanners : inputScanners st = map (skipn m) inputs;
  inv_line_num : line_num st = Z.of_nat m;
  inv_read_count : read_count st = Z.of_nat (rows_before m);
  inv_output : output st = map (read_row inputs) (seq 0 (rows_before m));
  inv_bound : forall s, In s inputs -> (m <= List.length s)%nat;
  inv_none : inputs = [] -> (m <= 1)%nat /\ zwriter st = None;
  inv_fresh : inputs <> [] -> (m mod 4 = 1)%nat ->
              zwriter st = Some Zlib.NewWriter /\ read_buf st = [] /\
              read_name st = name_of (line_at (hd [] inputs) (m - 1));
  inv_closed : inputs <> [] -> (m mod 4 = 2)%nat ->
               exists z, zwriter st = Some z /\ Zlib.closed z = true /\
                 Zlib.accepted z = fed_bytes (seq_lines inputs (m / 4)) /\
                 read_buf st = Zlib.container deflate (Zlib.accepted z)
}.

End Expected.

(** [full_len := 0] at the top of an iteration. *)
Definition reset_full_len (st : state) : state :=
  {| inputScanners := inputScanners st;
     line_num := line_num st; read_count := read_count st;
     read_name := read_name st; read_buf := read_buf st;
     zwriter := zwriter st; full_len := 0; output := output st |}.

(** Iteration [j] of a run on [inputs] was reached and went on. *)
Definition passed (deflate : list byte -> list byte) (args : Args)
    (inputs : list Scanner) (j : nat) : Prop :=
  exists st st', Inv deflate inputs j st /\
                 iteration deflate args st = Next st'.

(** A header line that lets the pass go on: it carries the sigil and,
    under [-check], the name [rn] of the read. *)
Definition passes (args : Args) (rn : string) (line : string) : bool :=
  HasPrefix line "@" && (negb (CheckNames args) || (name_of line =? rn)%string).

(** Every input has line [m], and at a header offset every such line
    passes against the name in input 0. *)
Definition line_ok (args : Args) (inputs : list Scanner) (m : nat) : Prop :=
  (forall s, In s inputs -> (m < List.length s)%nat) /\
  ((m mod 4 = 0)%nat ->
   HasPrefix (line_at (hd [] inputs) m) "@" = true /\
   forall s, In s (tl inputs) ->
     passes args (name_of (line_at (hd [] inputs) m)) (line_at s m) = true).

(** The limit does not stop iteration [m]. *)
Definition within_limit (args : Args) (m : nat) : Prop :=
  Limit args <= 0 \/ Z.of_nat (rows_before m) < Limit args.

(** The same two conditions as boolean tests, and their conjunction over
    the iterations before [M] of a run on at least one input. *)
Definition line_okb (args : Args) (inputs : list Scanner) (m : nat) : bool :=
  forallb (fun s => Nat.ltb m (List.length s)) inputs &&
  (if Nat.eqb (m mod 4) 0 then
     HasPrefix (line_at (hd [] inputs) m) "@" &&
     forallb
       (fun s => passes args (name_of (line_at (hd [] inputs) m)) (line_at s m))
       (tl inputs)
   else true).

Definition within_limitb (args : Args) (m : nat) : bool :=
  (Limit args <=? 0) || (Z.of_nat (rows_before m) <? Limit args).

Definition fine (args : Args) (inputs : list Scanner) (M : nat) : bool :=
  match inputs with
  | [] => false
  | _ :: _ =>
      forallb (fun j => within_limitb args j && line_okb args inputs j)
        (seq 0 M)
  end.

(** The inputs in front of the one under consideration let line [m]
    through; nothing to ask when there is none. *)
Definition front_ok (args : Args) (pre : list Scanner) (m : nat) : bool :=
  match pre with
  | [] => true
  | _ :: _ => line_okb args pre m
  end.



(** The flags as [flag.Parse] leaves them when none is given. *)
Definition defaults : Args :=
  {| OutFilename := ""; Limit := 0; CheckNames := false |}.

(** Complete 4-line cycles of an input. *)
Definition cycles (s : Scanner) : nat := (List.length s / 4)%nat.


(** Every header line of a single input carries the sigil. *)
Definition headers_ok (s : Scanner) : bool :=
  forallb
    (fun j => if Nat.eqb (j mod 4) 0 then HasPrefix (line_at s j) "@"
              else true)
    (seq 0 (List.length s)).

(** The row of read [k] if, as the specification words it, only the first
    input's sequence line were measured. *)
Definition first_only_row (deflate : list byte -> list byte)
    (inputs : list Scanner) (k : nat) : row :=
  let line := line_at (hd [] inputs) (4 * k + 1) in
  let L := len line in
  let C := Z.of_nat (List.length
                       (Zlib.container deflate (bytes_of (line ++ LF)))) in
  {| row_name := name_of (line_at (hd [] inputs) (4 * k));
     row_full_len := L;
     row_compressed_len := C;
     row_r := Float64.div (Float64.of_int L) (Float64.of_int C) |}.

(** The text of the error a run failed with, if it failed. *)
Definition error_text (res : option (outcome * state)) : option string :=
  match res with
  | Some (Failed e, _) => Some (Error e)
  | _ => None
  end.

End Lockstep.

(** ** Small inputs used in the closed examples *)

Module Examples.

Import Reader Lockstep.

(** Two paired inputs, one read each. *)
Definition pair_first : Scanner := ["@r/1"; "ACGT"; "+"; "IIII"].
Definition pair_second : Scanner := ["@r/2"; "GG"; "+"; "II"].

(** An input that ends right after the sequence line of its only read. *)
Definition cut_after_sequence : Scanner := ["@r1"; "ACGT"].

(** One complete read followed by the first two lines of another. *)
Definition one_and_a_half : Scanner :=
  ["@r1"; "ACGT"; "+"; "IIII"; "@r2"; "ACGT"].

(** Five complete reads. *)
Definition five_reads : Scanner :=
  ["@r1"; "ACGT"; "+"; "IIII"; "@r2"; "AAAA"; "+"; "IIII";
   "@r3"; "CCCC"; "+"; "IIII"; "@r4"; "GGGG"; "+"; "IIII";
   "@r5"; "TTTT"; "+"; "IIII"].

(** A header without the sigil, on the first or on the second input. *)
Definition bare : Scanner := ["ACGT"].
Definition headed : Scanner := ["@r"].

(** Two paired inputs of two reads whose second names differ. *)
Definition left_reads : Scanner :=
  ["@a 1"; "ACGT"; "+"; "IIII"; "@b 1"; "AAAA"; "+"; "IIII"].
Definition right_reads : Scanner :=
  ["@a 2"; "TTTT"; "+"; "IIII"; "@c 2"; "GGGG"; "+"; "IIII"].

(** A read whose sequence line is empty. *)
Definition empty_read : Scanner := ["@r0"; ""; "+"; ""].

(** No file system, and one complete read waiting on standard input. *)
Definition stdin_only : world :=
  {| os_Stdin := ["@r1"; "ACGT"; "+"; "IIII"];
     os_Open := fun _ => None |}.

Definition limit_two : Args :=
  {| OutFilename := ""; Limit := 2; CheckNames := false |}.

Definition checking : Args :=
  {| OutFilename := ""; Limit := 0; CheckNames := true |}.

End Examples.

(** ** Relations between runs *)

Module Relations.

Import Text Reader Lockstep.

(** Two inputs with as many lines and the same header and sequence
    lines. *)
Definition same_reads (s s' : Scanner) : bool :=
  Nat.eqb (List.length s) (List.length s') &&
  forallb
    (fun j => if Nat.ltb (j mod 4) 2
              then (line_at s j =? line_at s' j)%string else true)
    (seq 0 (List.length s)).

Fixpoint same_inputs (a b : list Scanner) : bool :=
  match a, b with
  | [], [] => true
  | s :: a', s' :: b' => same_reads s s' && same_inputs a' b'
  | _, _ => false
  end.

(** The variables of the loop other than the scanners. *)
Definition vars (st : state) :=
  (line_num st, read_count st, read_name st, read_buf st, zwriter st,
   full_len st, output st).

(** What is left of two inputs at line [m] has the same length and the
    same header and sequence lines. *)
Definition alike (m : nat) (sc sc' : Scanner) : Prop :=
  List.length sc = List.length sc' /\
  forall j, (j < List.length sc)%nat -> ((m + j) mod 4 < 2)%nat ->
            nth j sc "" = nth j sc' "".

Definition related (m : nat) (st st' : state) : Prop :=
  Forall2 (alike m) (inputScanners st) (inputScanners st') /\
  vars st = vars st' /\ line_num st = Z.of_nat m.

Definition agree {A : Type} (same : A -> A -> Prop) (x y : flow A) : Prop :=
  match x, y with
  | Next a, Next b => same a b
  | Return o, Return o' => o = o'
  | _, _ => False
  end.

(** Each input with further lines appended. *)
Definition appended (inputs tails : list Scanner) : list Scanner :=
  map (fun p => fst p ++ snd p) (combine inputs tails).

(** [log.Println("processed", line_num, "lines")], the last statement of
    [main]. *)
Definition Println_processed (st : state) : string :=
  "processed " ++ fmt_d (line_num st) ++ " lines" ++ LF.

(** The text has no space in it. *)
Definition spaceless (s : string) : Prop :=
  ~ In " "%char (list_ascii_of_string s).

End Relations.

(** ** The two file wrappers *)

(** [AmbiReader] and [AmbiWriter] over a small model of what they call:
    [os.Open], [os.Create] and the [Close] of a file on a table of open
    files,
    [gzip.NewReader], which fails on a file without a gzip header, and the
    [Close] of the two gzip types, which returns the error pending in the
    object, none in a new one. *)

Module Files.

(** [strings.HasSuffix(s, suf)] *)
Definition HasSuffix (s suf : string) : bool :=
  (String.length suf <=? String.length s)%nat &&
  (substring (String.length s - String.length suf) (String.length suf) s
   =? suf)%string.

(** An [*os.File]: the number of the open call that made it, and the name
    it was opened under. *)
Record File : Type := { id : nat; name : string }.

Inductive error : Type :=
| Errorf (msg : string)
| PathError (op path : string)
| ErrHeader
| ErrInvalid
| ErrClosed.

(** The files the process holds open, and how many it has opened. *)
Record os : Type := { opened : list nat; count : nat }.

(** What is on disk: the paths that open for reading, those that start
    with a gzip header, and those that can be created. *)
Record disk : Type := {
  readable : string -> bool;
  gzipped : string -> bool;
  creatable : string -> bool
}.

Definition fresh (fn : string) (s : os) : File * os :=
  ({| id := count s; name := fn |},
   {| opened := count s :: opened s; count := S (count s) |}).

(** [os.Open(fn)] *)
Definition os_Open (d : disk) (fn : string) (s : os)
  : (error + File) * os :=
  if readable d fn then let '(f, s') := fresh fn s in (inr f, s')
  else (inl (PathError "open" fn), s).

(** [os.Create(fn)] *)
Definition os_Create (d : disk) (fn : string) (s : os)
  : (error + File) * os :=
  if creatable d fn then let '(f, s') := fresh fn s in (inr f, s')
  else (inl (PathError "open" fn), s).

(** [f.Close()] on an [*os.File], which may be nil: [ErrInvalid] on nil,
    an error on a file that is closed already. *)
Definition File_Close (f : option File) (s : os) : option error * os :=
  match f with
  | None => (Some ErrInvalid, s)
  | Some f =>
      if existsb (Nat.eqb (id f)) (opened s)
      then (None, {| opened := remove Nat.eq_dec (id f) (opened s);
                     count := count s |})
      else (Some ErrClosed, s)
  end.

(** A [*gzip.Reader] or [*gzip.Writer]: the file under it and the error
    its [Close] will return. *)
Record Gzip : Type := { under : File; pending : option error }.

(** [gzip.NewReader(f)] *)
Definition gzip_NewReader (d : disk) (f : File) : error + Gzip :=
  if gzipped d (name f) then inr {| under := f; pending := None |}
  else inl ErrHeader.

(** [gzip.NewWriter(f)] *)
Definition gzip_NewWriter (f : File) : Gzip :=
  {| under := f; pending := None |}.

(** The values of the interface fields [r]. *)
Inductive stream : Type :=
| Std
| OfFile (f : File)
| OfGzip (g : Gzip).

Module AmbiReader.

Record t : Type := { fp : option File; gz : option Gzip; r : option stream }.

(** The zero value [AmbiReader{}]. *)
Definition zero : t := {| fp := None; gz := None; r := None |}.

Definition Open (d : disk) (a : t) (fn : string) (s : os)
  : option error * t * os :=
  match r a with
  | Some _ => (Some (Errorf "AmbiReader already open"), a, s)
  | None =>
      if (fn =? "")%string then
        (None, {| fp := fp a; gz := gz a; r := Some Std |}, s)
      else
        match os_Open d fn s with
        | (inl err, s') =>
            (Some err, {| fp := None; gz := gz a; r := r a |}, s')
        | (inr f, s') =>
            if HasSuffix fn ".gz" then
              match gzip_NewReader d f with
              | inl err =>
                  (Some err, {| fp := Some f; gz := None; r := r a |}, s')
              | inr g =>
                  (None,
                   {| fp := Some f; gz := Some g; r := Some (OfGzip g) |}, s')
              end
            else
              (None, {| fp := Some f; gz := gz a; r := Some (OfFile f) |}, s')
        end
  end.

Definition Close (a : t) (s : os) : option error * os :=
  match gz a with
  | Some g =>
      match pending g with
      | Some err => (Some err, s)
      | None => File_Close (fp a) s
      end
  | None => File_Close (fp a) s
  end.

End AmbiReader.

Module AmbiWriter.

Record t : Type := { fp : option File; gz : option Gzip; r : option stream }.

(** The zero value [AmbiWriter{}]. *)
Definition zero : t := {| fp := None; gz := None; r := None |}.

Definition Close (a : t) (s : os) : option error * os :=
  match gz a with
  | Some g =>
      match pending g with
      | Some err => (Some err, s)
      | None => File_Close (fp a) s
      end
  | None => File_Close (fp a) s
  end.

Definition Open (d : disk) (a : t) (fn : string) (s : os)
  : option error * t * os :=
  match r a with
  | Some _ => (Some (Errorf "AmbiWriter already open"), a, s)
  | None =>
      if (fn =? "")%string then
        (None, {| fp := fp a; gz := gz a; r := Some Std |}, s)
      else
        match os_Create d fn s with
        | (inl err, s') =>
            (Some err, {| fp := None; gz := gz a; r := r a |}, s')
        | (inr f, s') =>
            if HasSuffix fn ".gz" then
              let g := gzip_NewWriter f in
              (None, {| fp := Some f; gz := Some g; r := Some (OfGzip g) |},
               s')
            else
              (None, {| fp := Some f; gz := gz a; r := Some (OfFile f) |}, s')
        end
  end.

Definition Stdout (a : t) : t :=
  {| fp := fp a; gz := gz a; r := Some Std |}.

End AmbiWriter.

(** Every open file was given out by an earlier call, once. *)
Definition sound (s : os) : bool :=
  forallb (fun n => Nat.ltb n (count s)) (opened s).

(** Two files on disk, one of them gzip, and a process with the three
    standard streams. *)
Definition two_files : disk :=
  {| readable := fun fn => (fn =? "a.fq")%string || (fn =? "b.fq.gz")%string
                           || (fn =? "c.gz")%string;
     gzipped := fun fn => (fn =? "b.fq.gz")%string;
     creatable := fun fn => (fn =? "out.tsv")%string |}.

Definition at_start : os := {| opened := [2; 1; 0]%nat; count := 3 |}.

End Files.

(** ** Facts about float64 *)

Module FloatFacts.

(** Binary digits of a positive number. *)
Lemma digits2_pos_size (p : positive) : digits2_pos p = Pos.size p.
Proof. induction p; simpl; congruence. Qed.

Lemma Zdigits2_log2 (x : Z) : 0 < x -> Zdigits2 x = Z.log2 x + 1.
Proof.
  destruct x as [|p|p]; try lia. intros _. simpl Zdigits2.
  rewrite digits2_pos_size.
  destruct p; simpl; try rewrite Pos2Z.inj_succ; lia.
Qed.

Lemma Zdigits2_nonneg (x : Z) : 0 <= Zdigits2 x.
Proof. destruct x; simpl; lia. Qed.

Lemma Zdigits2_bounds (x : Z) :
  0 < x -> 2 ^ (Zdigits2 x - 1) <= x < 2 ^ Zdigits2 x.
Proof.
  intros H. rewrite (Zdigits2_log2 x H).
  replace (Z.log2 x + 1 - 1) with (Z.log2 x) by lia.
  apply Z.log2_spec. exact H.
Qed.

Lemma Zdigits2_unique (x k : Z) :
  0 < x -> 2 ^ (k - 1) <= x < 2 ^ k -> 0 < k -> Zdigits2 x = k.
Proof.
  intros Hx Hb Hk. rewrite (Zdigits2_log2 x Hx).
  assert (Z.log2 x = k - 1); [|lia].
  apply Z.log2_unique; [lia|]. replace (Z.succ (k - 1)) with k by lia.
  exact Hb.
Qed.

Lemma Zdigits2_le (x y : Z) : 0 <= x <= y -> Zdigits2 x <= Zdigits2 y.
Proof.
  intros [H0 Hxy]. destruct (Z.eq_dec x 0) as [->|Hx].
  - apply Zdigits2_nonneg.
  - rewrite !Zdigits2_log2 by lia.
    pose proof (Z.log2_le_mono x y Hxy). lia.
Qed.

Lemma Zdigits2_lt_pow (x k : Z) : 0 <= k -> 0 <= x < 2 ^ k -> Zdigits2 x <= k.
Proof.
  intros Hk [H0 Hx]. destruct (Z.eq_dec x 0) as [->|Hx0]; [simpl; lia|].
  rewrite Zdigits2_log2 by lia.
  assert (Z.log2 x < k); [|lia]. apply Z.log2_lt_pow2; lia.
Qed.


(** Dropping [n] low bits drops [n] digits. *)
Lemma Zdigits2_div_pow (x n : Z) :
  0 < x -> 0 <= n < Zdigits2 x ->
  0 < x / 2 ^ n /\ Zdigits2 (x / 2 ^ n) = Zdigits2 x - n.
Proof.
  intros Hx Hn. pose proof (Zdigits2_bounds x Hx) as [Hlo Hhi].
  assert (Hp : 0 < 2 ^ n) by (apply Z.pow_pos_nonneg; lia).
  assert (Hq : 2 ^ (Zdigits2 x - n - 1) <= x / 2 ^ n < 2 ^ (Zdigits2 x - n)).
  { split.
    - apply Z.div_le_lower_bound; [exact Hp|].
      rewrite <- Z.pow_add_r by lia.
      replace (n + (Zdigits2 x - n - 1)) with (Zdigits2 x - 1) by lia.
      exact Hlo.
    - apply Z.div_lt_upper_bound; [exact Hp|].
      rewrite <- Z.pow_add_r by lia.
      replace (n + (Zdigits2 x - n)) with (Zdigits2 x) by lia. exact Hhi. }
  assert (H0 : 0 < x / 2 ^ n).
  { pose proof (Z.pow_pos_nonneg 2 (Zdigits2 x - n - 1)). lia. }
  split; [exact H0|]. apply Zdigits2_unique; [exact H0 | exact Hq | lia].
Qed.

(** Appending [n] low zero bits adds [n] digits. *)
Lemma Zdigits2_mul_pow (x n : Z) :
  0 < x -> 0 <= n -> Zdigits2 (x * 2 ^ n) = Zdigits2 x + n.
Proof.
  intros Hx Hn. pose proof (Zdigits2_bounds x Hx) as [Hlo Hhi].
  assert (Hp : 0 < 2 ^ n) by (apply Z.pow_pos_nonneg; lia).
  pose proof (Zdigits2_nonneg x).
  assert (0 < Zdigits2 x) by (rewrite Zdigits2_log2 by lia;
                               pose proof (Z.log2_nonneg x); lia).
  apply Zdigits2_unique; [nia | | lia].
  replace (Zdigits2 x + n - 1) with (Zdigits2 x - 1 + n) by lia.
  rewrite !Z.pow_add_r by lia. nia.
Qed.

(** *** Shifting right *)

Lemma shr_1_m (mrs : shr_record) :
  0 <= shr_m mrs -> shr_m (shr_1 mrs) = shr_m mrs / 2.
Proof.
  destruct mrs as [m r s]. simpl. intros Hm.
  destruct m as [|p|p]; try lia; [reflexivity|].
  destruct p as [p|p|]; simpl shr_m.
  - rewrite Pos2Z.inj_xI. apply Z.div_unique with (r := 1); lia.
  - rewrite Pos2Z.inj_xO. apply Z.div_unique with (r := 0); lia.
  - reflexivity.
Qed.

Lemma iter_shr_1_m (p : positive) (mrs : shr_record) :
  0 <= shr_m mrs ->
  shr_m (iter_pos shr_1 p mrs) = shr_m mrs / 2 ^ Z.pos p.
Proof.
  revert mrs. induction p as [p IH|p IH|]; intros mrs Hm; simpl iter_pos.
  - assert (H1 : 0 <= shr_m (shr_1 mrs)).
    { rewrite shr_1_m by exact Hm. apply Z.div_pos; lia. }
    assert (H2 : 0 <= shr_m (iter_pos shr_1 p (shr_1 mrs))).
    { rewrite IH by exact H1. apply Z.div_pos; [exact H1|].
      apply Z.pow_pos_nonneg; lia. }
    rewrite IH by exact H2. rewrite IH by exact H1. rewrite shr_1_m by exact Hm.
    rewrite !Z.div_div by (try apply Z.pow_pos_nonneg; lia).
    f_equal. replace (Z.pos p~1) with (1 + Z.pos p + Z.pos p) by lia.
    rewrite !Z.pow_add_r by lia. lia.
  - assert (H2 : 0 <= shr_m (iter_pos shr_1 p mrs)).
    { rewrite IH by exact Hm. apply Z.div_pos; [exact Hm|].
      apply Z.pow_pos_nonneg; lia. }
    rewrite IH by exact H2. rewrite IH by exact Hm.
    rewrite !Z.div_div by (try apply Z.pow_pos_nonneg; lia).
    f_equal. replace (Z.pos p~0) with (Z.pos p + Z.pos p) by lia.
    rewrite !Z.pow_add_r by lia. lia.
  - rewrite shr_1_m by exact Hm. reflexivity.
Qed.

(** *** Rounding to binary64 *)

(** The exponent a mantissa is shifted to, and the shifted mantissa. *)
Lemma shr_fexp_spec (m e : Z) (l : location) :
  0 <= m ->
  let e' := Z.max e (fexp Float64.prec Float64.emax (Zdigits2 m + e)) in
  snd (shr_fexp Float64.prec Float64.emax m e l) = e' /\
  shr_m (fst (shr_fexp Float64.prec Float64.emax m e l)) = m / 2 ^ (e' - e).
Proof.
  intros Hm e'. unfold shr_fexp, shr.
  assert (Hrec : shr_m (shr_record_of_loc m l) = m).
  { destruct l as [|[]]; reflexivity. }
  destruct (fexp Float64.prec Float64.emax (Zdigits2 m + e) - e)
    as [|p|p] eqn:En; simpl fst; simpl snd.
  - assert (e' = e) by (unfold e'; lia). split; [lia|].
    rewrite Hrec. replace (e' - e) with 0 by lia. rewrite Z.div_1_r.
    reflexivity.
  - assert (e' = e + Z.pos p) by (unfold e'; lia). split; [lia|].
    rewrite iter_shr_1_m by (rewrite Hrec; exact Hm). rewrite Hrec.
    f_equal. f_equal. lia.
  - assert (e' = e) by (unfold e'; lia). split; [lia|].
    rewrite Hrec. replace (e' - e) with 0 by lia. rewrite Z.div_1_r.
    reflexivity.
Qed.

Lemma round_nearest_even_bounds (m : Z) (l : location) :
  m <= round_nearest_even m l <= m + 1.
Proof.
  destruct l as [|[]]; simpl; try lia. destruct (Z.even m); lia.
Qed.

(** Rounding a positive mantissa in the normal range gives a finite
    number of about the same magnitude. *)
Lemma binary_round_aux_finite (sx : bool) (mx ex : Z) (lx : location) :
  0 < mx -> -1021 <= Zdigits2 mx + ex <= 1023 -> ex <= 971 ->
  exists m e,
    binary_round_aux Float64.prec Float64.emax sx mx ex lx
      = S754_finite sx m e /\
    Zdigits2 mx + ex <= Zdigits2 (Z.pos m) + e <= Zdigits2 mx + ex + 1.
Proof.
  intros Hmx HX Hex. unfold binary_round_aux.
  pose proof (shr_fexp_spec mx ex lx ltac:(lia)) as [He1 Hm1].
  destruct (shr_fexp Float64.prec Float64.emax mx ex lx) as [mrs1 e1].
  simpl in He1, Hm1.
  assert (Hd : 0 < Zdigits2 mx).
  { rewrite Zdigits2_log2 by lia. pose proof (Z.log2_nonneg mx). lia. }
  assert (Hf1 : fexp Float64.prec Float64.emax (Zdigits2 mx + ex)
                = Zdigits2 mx + ex - 53).
  { unfold fexp, SpecFloat.emin, Float64.prec, Float64.emax. lia. }
  rewrite <- He1 in Hm1. rewrite Hf1 in He1.
  destruct (Zdigits2_div_pow mx (e1 - ex) Hmx ltac:(lia)) as [Hpos1 Hdig1].
  rewrite <- Hm1 in Hpos1, Hdig1.
  set (m2 := round_nearest_even (shr_m mrs1) (loc_of_shr_record mrs1)).
  pose proof (round_nearest_even_bounds (shr_m mrs1) (loc_of_shr_record mrs1))
    as Hm2. fold m2 in Hm2.
  assert (Hdig2 : Zdigits2 (shr_m mrs1) <= Zdigits2 m2
                  <= Zdigits2 (shr_m mrs1) + 1).
  { split.
    - apply Zdigits2_le. lia.
    - apply Zdigits2_lt_pow; [pose proof (Zdigits2_nonneg (shr_m mrs1)); lia|].
      pose proof (Zdigits2_bounds (shr_m mrs1) Hpos1).
      rewrite Z.pow_add_r by (pose proof (Zdigits2_nonneg (shr_m mrs1)); lia).
      lia. }
  pose proof (shr_fexp_spec m2 e1 loc_Exact ltac:(lia)) as [He2 Hm3].
  destruct (shr_fexp Float64.prec Float64.emax m2 e1 loc_Exact) as [mrs2 e2].
  simpl in He2, Hm3.
  assert (Hf2 : fexp Float64.prec Float64.emax (Zdigits2 m2 + e1)
                = Zdigits2 m2 + e1 - 53).
  { unfold fexp, SpecFloat.emin, Float64.prec, Float64.emax. lia. }
  rewrite <- He2 in Hm3. rewrite Hf2 in He2.
  destruct (Zdigits2_div_pow m2 (e2 - e1) ltac:(lia) ltac:(lia))
    as [Hpos3 Hdig3].
  rewrite <- Hm3 in Hpos3, Hdig3.
  destruct (shr_m mrs2) as [|m3|m3] eqn:E3; try lia.
  replace (e2 <=? Float64.emax - Float64.prec) with true
    by (symmetry; apply Z.leb_le; unfold Float64.emax, Float64.prec; lia).
  exists m3, e2. split; [reflexivity | lia].
Qed.


Lemma iter_xO (m d : positive) :
  Z.pos (Pos.iter xO m d) = Z.pos m * 2 ^ Z.pos d.
Proof.
  induction d as [|d IH] using Pos.peano_ind.
  - simpl. lia.
  - rewrite Pos.iter_succ, Pos2Z.inj_xO, IH, Pos2Z.inj_succ, Z.pow_succ_r; lia.
Qed.

Lemma shl_align_spec (mx : positive) (ex ex' : Z) :
  snd (shl_align mx ex ex') <= ex /\
  Z.pos (fst (shl_align mx ex ex')) =
    Z.pos mx * 2 ^ (ex - snd (shl_align mx ex ex')) /\
  snd (shl_align mx ex ex') = Z.min ex ex'.
Proof.
  unfold shl_align. destruct (ex' - ex) as [|d|d] eqn:E; simpl fst; simpl snd.
  - replace (ex - ex) with 0 by lia. lia.
  - replace (ex - ex) with 0 by lia. lia.
  - rewrite iter_xO. replace (ex - ex') with (Z.pos d) by lia. lia.
Qed.

(** [float64(n)] for a positive [int] is a finite positive number with
    as many digits before the binary point as [n], or one more. *)
Lemma of_int_finite (n : Z) :
  0 < n < 2 ^ 63 ->
  exists m e,
    binary_normalize Float64.prec Float64.emax n 0 false
      = S754_finite false m e /\
    1 <= Zdigits2 (Z.pos m) + e <= 64.
Proof.
  intros [Hpos Hlt]. destruct n as [|p|p]; try lia.
  unfold binary_normalize, binary_round.
  set (ex' := fexp Float64.prec Float64.emax (Z.pos (digits2_pos p) + 0)).
  pose proof (shl_align_spec p 0 ex') as (Hle & Hmz & Hez).
  destruct (shl_align p 0 ex') as [mz ez]. simpl fst in *. simpl snd in *.
  assert (Hd : 1 <= Zdigits2 (Z.pos p) <= 63).
  { split.
    - rewrite Zdigits2_log2 by lia. pose proof (Z.log2_nonneg (Z.pos p)). lia.
    - apply Zdigits2_lt_pow; lia. }
  assert (Hmag : Zdigits2 (Z.pos mz) + ez = Zdigits2 (Z.pos p)).
  { rewrite Hmz, Zdigits2_mul_pow by lia. lia. }
  destruct (binary_round_aux_finite false (Z.pos mz) ez loc_Exact)
    as (m & e & Hr & Hb); try lia.
  exists m, e. split; [exact Hr | lia].
Qed.


End FloatFacts.

(** ** Facts about the two verbs *)

Module FormatFacts.

Import Text FloatFacts.


(** *** The verb [%d] *)




(** *** The verb [%0.4f] *)








End FormatFacts.

(** ** Facts about the loop *)

Module LockstepFacts.

Import Text Reader Lockstep.

(** *** Arithmetic of the cycle position *)

Lemma rem4_of_nat (m : nat) : Z.rem (Z.of_nat m) 4 = Z.of_nat (m mod 4).
Proof.
  rewrite Z.rem_mod_nonneg by lia.
  change 4 with (Z.of_nat 4). now rewrite <- Nat2Z.inj_mod.
Qed.

Lemma rows_before_S (m : nat) :
  rows_before (S m) =
  if Nat.eqb (m mod 4) 1 then S (rows_before m) else rows_before m.
Proof.
  unfold rows_before.
  destruct (Nat.eqb_spec (m mod 4) 1) as [E|E].
  - pose proof (Nat.div_mod_eq m 4). pose proof (Nat.div_mod_eq (S m + 2) 4).
    pose proof (Nat.div_mod_eq (m + 2) 4).
    pose proof (Nat.mod_upper_bound (S m + 2) 4).
    pose proof (Nat.mod_upper_bound (m + 2) 4). lia.
  - pose proof (Nat.div_mod_eq m 4). pose proof (Nat.div_mod_eq (S m + 2) 4).
    pose proof (Nat.div_mod_eq (m + 2) 4).
    pose proof (Nat.mod_upper_bound (S m + 2) 4).
    pose proof (Nat.mod_upper_bound (m + 2) 4).
    pose proof (Nat.mod_upper_bound m 4). lia.
Qed.

Lemma rows_before_seq (k : nat) : rows_before (4 * k + 1) = k.
Proof.
  unfold rows_before.
  pose proof (Nat.div_mod_eq (4 * k + 1 + 2) 4).
  pose proof (Nat.mod_upper_bound (4 * k + 1 + 2) 4). lia.
Qed.

Lemma phase_seq (m : nat) :
  (m mod 4 = 1)%nat -> m = (4 * rows_before m + 1)%nat.
Proof.
  intros E. unfold rows_before.
  pose proof (Nat.div_mod_eq m 4). pose proof (Nat.div_mod_eq (m + 2) 4).
  pose proof (Nat.mod_upper_bound (m + 2) 4). lia.
Qed.

End LockstepFacts.

Module PassFacts.

Import Text Reader Lockstep.

(** *** Lists of lines *)

Lemma hd_skipn (s : Scanner) (m : nat) : hd "" (skipn m s) = line_at s m.
Proof.
  unfold line_at. revert s. induction m as [|m IH]; intros [|l s]; simpl; auto.
Qed.

Lemma tl_skipn (s : Scanner) (m : nat) : tl (skipn m s) = skipn (S m) s.
Proof.
  revert s. induction m as [|m IH]; intros s.
  - destruct s; reflexivity.
  - destruct s as [|l s]; [reflexivity|].
    change (skipn (S m) (l :: s)) with (skipn m s).
    change (skipn (S (S m)) (l :: s)) with (skipn (S m) s). apply IH.
Qed.

Lemma skipn_nonempty (s : Scanner) (m : nat) :
  skipn m s <> [] <-> (m < List.length s)%nat.
Proof.
  revert s. induction m as [|m IH]; intros [|l s]; simpl.
  - split; [congruence | lia].
  - split; [lia | congruence].
  - split; [congruence | lia].
  - rewrite IH. lia.
Qed.

Lemma skipn_cons (s : Scanner) (m : nat) :
  (m < List.length s)%nat -> skipn m s = line_at s m :: skipn (S m) s.
Proof.
  intros H. rewrite <- hd_skipn, <- tl_skipn.
  apply skipn_nonempty in H. destruct (skipn m s); [congruence | reflexivity].
Qed.

Section Pass.

Variable deflate : list byte -> list byte.
Variable args : Args.

Ltac split_flow H :=
  repeat match type of H with
  | (if ?c then _ else _) = _ => destruct c eqn:?
  | match ?x with _ => _ end = _ => destruct x eqn:?
  | (let '(_, _) := ?x in _) = _ => destruct x eqn:?
  end.

(** *** One line *)

Lemma on_line_keeps i line st st' :
  on_line args i line st = Next st' ->
  line_num st' = line_num st /\ read_count st' = read_count st /\
  output st' = output st.
Proof.
  unfold on_line. intros H. split_flow H; inversion H; subst; simpl; auto.
Qed.

Lemma on_line_quiet i line st :
  Z.rem (line_num st) 4 <> 0 -> Z.rem (line_num st) 4 <> 1 ->
  on_line args i line st = Next st.
Proof.
  intros H0 H1. unfold on_line.
  destruct (Z.eqb_spec (Z.rem (line_num st) 4) 0); [contradiction|].
  destruct (Z.eqb_spec (Z.rem (line_num st) 4) 1); [contradiction|].
  reflexivity.
Qed.

(** A header line on an input after the first either stops the run or
    leaves the state alone. *)
Lemma on_line_header_later i line st :
  Z.rem (line_num st) 4 = 0 -> i <> 0 ->
  on_line args i line st =
  if negb (HasPrefix line "@") then
    Return (Failed (MalformedRecord (line_num st) line))
  else if CheckNames args && negb (name_of line =? read_name st)%string then
    Return (Failed (NameMismatch (read_name st) (line_num st) (i + 1)
                      (name_of line)))
  else Next st.
Proof.
  intros H0 Hi. unfold on_line. rewrite H0. simpl.
  destruct (Z.eqb_spec i 0); [contradiction | reflexivity].
Qed.

Lemma on_line_header_first line st :
  Z.rem (line_num st) 4 = 0 ->
  on_line args 0 line st =
  if negb (HasPrefix line "@") then
    Return (Failed (MalformedRecord (line_num st) line))
  else
    Next {| inputScanners := inputScanners st;
            line_num := line_num st; read_count := read_count st;
            read_name := name_of line; read_buf := [];
            zwriter := Some Zlib.NewWriter;
            full_len := full_len st; output := output st |}.
Proof.
  intros H0. unfold on_line. rewrite H0. reflexivity.
Qed.

Lemma on_line_seq i line st z :
  Z.rem (line_num st) 4 = 1 -> zwriter st = Some z ->
  on_line args i line st =
  Next {| inputScanners := inputScanners st;
          line_num := line_num st; read_count := read_count st;
          read_name := read_name st;
          read_buf := snd (Zlib.Write z (read_buf st) (bytes_of (line ++ LF)));
          zwriter := Some (fst (Zlib.Write z (read_buf st)
                                  (bytes_of (line ++ LF))));
          full_len := full_len st + len line; output := output st |}.
Proof.
  intros H1 Hz. unfold on_line. rewrite H1, Hz. simpl.
  destruct (Zlib.Write z (read_buf st) (bytes_of (line ++ LF))). reflexivity.
Qed.

(** *** One pass over the inputs *)

Lemma scan_from_shape i scs st scs' st' :
  scan_from args i scs st = Next (scs', st') ->
  scs' = map (@tl string) scs /\ Forall (fun sc => sc <> []) scs /\
  line_num st' = line_num st /\ read_count st' = read_count st /\
  output st' = output st.
Proof.
  revert i st scs' st'. induction scs as [|sc rest IH]; intros i st scs' st' H.
  - simpl in H. inversion H; subst. repeat split; auto.
  - simpl in H. destruct sc as [|line sc']; simpl in H.
    + destruct (i =? 0); discriminate.
    + destruct (on_line args i line st) as [st1|] eqn:E1; [|discriminate].
      destruct (scan_from args (i + 1) rest st1) as [[rest' st2]|] eqn:E2;
        [|discriminate].
      inversion H; subst.
      apply IH in E2. destruct E2 as (-> & HF & Hl & Hr & Ho).
      apply on_line_keeps in E1. destruct E1 as (Hl1 & Hr1 & Ho1).
      repeat split; simpl; auto; try congruence.
      constructor; [congruence | assumption].
Qed.

Lemma scan_from_quiet i scs st :
  Z.rem (line_num st) 4 <> 0 -> Z.rem (line_num st) 4 <> 1 ->
  Forall (fun sc => sc <> []) scs ->
  scan_from args i scs st = Next (map (@tl string) scs, st).
Proof.
  intros H0 H1 HF. revert i. induction HF as [|sc rest Hsc HF IH]; intros i.
  - reflexivity.
  - destruct sc as [|line sc']; [congruence|]. simpl.
    rewrite on_line_quiet by assumption. rewrite IH. reflexivity.
Qed.

(** At a header offset the inputs after the first leave the state alone
    as long as their lines pass. *)
Lemma scan_from_header_later i scs st :
  Z.rem (line_num st) 4 = 0 -> 0 < i ->
  Forall (fun sc => sc <> [] /\
            passes args (read_name st) (hd "" sc) = true) scs ->
  scan_from args i scs st = Next (map (@tl string) scs, st).
Proof.
  intros H0 Hi HF. revert i Hi.
  induction HF as [|sc rest [Hsc Hp] HF IH]; intros i Hi.
  - reflexivity.
  - destruct sc as [|line sc']; [congruence|]. simpl in Hp |- *.
    rewrite on_line_header_later by (auto; lia).
    unfold passes in Hp. apply andb_true_iff in Hp. destruct Hp as [Hp1 Hp2].
    rewrite Hp1. simpl.
    replace (CheckNames args && negb (name_of line =? read_name st)%string)
      with false.
    + rewrite IH by lia. reflexivity.
    + destruct (CheckNames args); simpl in *; [rewrite Hp2|]; reflexivity.
Qed.

Lemma scan_from_header_later_inv i scs st scs' st' :
  Z.rem (line_num st) 4 = 0 -> 0 < i ->
  scan_from args i scs st = Next (scs', st') -> st' = st.
Proof.
  intros H0. revert i scs'. induction scs as [|sc rest IH]; intros i scs' Hi H.
  - simpl in H. now inversion H.
  - destruct sc as [|line sc']; simpl in H.
    + destruct (i =? 0); discriminate.
    + rewrite on_line_header_later in H by (auto; lia).
      destruct (negb (HasPrefix line "@")); [discriminate|].
      destruct (CheckNames args && negb (name_of line =? read_name st)%string);
        [discriminate|].
      destruct (scan_from args (i + 1) rest st) as [[rest' st2]|] eqn:E2;
        [|discriminate].
      inversion H; subst. eapply IH; [|exact E2]. lia.
Qed.

(** At a sequence offset every input adds its line to [full_len] and to
    the writer. *)
Lemma scan_from_seq i scs st z scs' st' :
  Z.rem (line_num st) 4 = 1 -> zwriter st = Some z ->
  Zlib.closed z = false ->
  scan_from args i scs st = Next (scs', st') ->
  full_len st' = full_len st + raw_total (map (hd "") scs) /\
  read_name st' = read_name st /\
  exists z', zwriter st' = Some z' /\ Zlib.closed z' = false /\
    Zlib.accepted z' = Zlib.accepted z ++ fed_bytes (map (hd "") scs) /\
    Zlib.with_header z' (read_buf st') = Zlib.with_header z (read_buf st).
Proof.
  revert i st z scs' st'.
  induction scs as [|sc rest IH]; intros i st z scs' st' H1 Hz Hc H.
  - simpl in H. inversion H; subst. simpl. repeat split; [lia|].
    exists z. rewrite app_nil_r. auto.
  - destruct sc as [|line sc']; simpl in H.
    + destruct (i =? 0); discriminate.
    + rewrite (on_line_seq _ _ _ _ H1 Hz) in H.
      match type of H with
      | match scan_from _ _ _ ?s with _ => _ end = _ => set (st1 := s) in *
      end.
      destruct (scan_from args (i + 1) rest st1) as [[rest' st2]|] eqn:E2;
        [|discriminate].
      inversion H; subst scs' st2. clear H.
      eapply IH in E2; [| exact H1 | reflexivity |].
      * destruct E2 as (Hf & Hn & z' & Hz' & Hc' & Ha & Hw).
        simpl. repeat split.
        -- rewrite Hf. subst st1. simpl. lia.
        -- rewrite Hn. reflexivity.
        -- exists z'. repeat split; auto.
           ++ rewrite Ha. subst st1. unfold Zlib.Write. rewrite Hc. simpl.
              unfold fed_bytes. simpl. now rewrite <- app_assoc.
           ++ rewrite Hw. subst st1. unfold Zlib.Write. rewrite Hc. simpl.
              unfold Zlib.with_header at 1. reflexivity.
      * unfold Zlib.Write. rewrite Hc. reflexivity.
Qed.

Lemma scan_from_seq_goes i scs st z :
  Z.rem (line_num st) 4 = 1 -> zwriter st = Some z ->
  Forall (fun sc => sc <> []) scs ->
  exists st', scan_from args i scs st = Next (map (@tl string) scs, st').
Proof.
  intros H1 Hz HF. revert i st z H1 Hz.
  induction HF as [|sc rest Hsc HF IH]; intros i st z H1 Hz.
  - eexists. reflexivity.
  - destruct sc as [|line sc']; [congruence|]. simpl.
    rewrite (on_line_seq _ _ _ _ H1 Hz).
    edestruct IH as [st' E]; [| | rewrite E; eexists; reflexivity].
    + exact H1.
    + reflexivity.
Qed.

End Pass.

End PassFacts.

Module LoopFacts.

Import Text Reader Lockstep LockstepFacts PassFacts.

Section Loop.

Variable deflate : list byte -> list byte.
Variable args : Args.
Variable inputs : list Scanner.

Lemma heads_skipn (m : nat) (ss : list Scanner) :
  map (hd "") (map (skipn m) ss) = map (fun s => line_at s m) ss.
Proof.
  rewrite map_map. apply map_ext. intros s. apply hd_skipn.
Qed.

Lemma tails_skipn (m : nat) (ss : list Scanner) :
  map (@tl string) (map (skipn m) ss) = map (skipn (S m)) ss.
Proof.
  rewrite map_map. apply map_ext. intros s. apply tl_skipn.
Qed.

Lemma nonempty_skipn (m : nat) (ss : list Scanner) :
  Forall (fun sc => sc <> []) (map (skipn m) ss) <->
  forall s, In s ss -> (m < List.length s)%nat.
Proof.
  rewrite Forall_map, Forall_forall.
  split; intros H s Hs; apply skipn_nonempty; auto.
Qed.

Ltac fields :=
  cbn [inputScanners line_num read_count read_name read_buf zwriter
       full_len output].

Lemma Inv_initial : Inv deflate inputs 0 (initial inputs).
Proof.
  constructor; simpl.
  - symmetry. apply map_id.
  - reflexivity.
  - reflexivity.
  - reflexivity.
  - intros; lia.
  - intros; split; [lia | reflexivity].
  - intros _ H. discriminate.
  - intros _ H. discriminate.
Qed.

(** Closing the writer of a read leaves the whole container in the
    buffer. *)
Lemma Close_container z buf data :
  Zlib.closed z = false -> Zlib.accepted z = data ->
  Zlib.with_header z buf = Zlib.header ->
  snd (Zlib.Close deflate z buf) = Zlib.container deflate data.
Proof.
  intros Hc Ha Hw. unfold Zlib.Close, Zlib.container. simpl.
  rewrite Hc, Ha, Hw. reflexivity.
Qed.

Lemma iteration_unfold st :
  iteration deflate args st =
  if (0 <? Limit args) && (Limit args <=? read_count st) then Return Done
  else
    match scan_from args 0 (inputScanners st) (reset_full_len st) with
    | Return o => Return o
    | Next (scs, st1) =>
        finish_line deflate
          {| inputScanners := scs;
             line_num := line_num st1; read_count := read_count st1;
             read_name := read_name st1; read_buf := read_buf st1;
             zwriter := zwriter st1; full_len := full_len st1;
             output := output st1 |}
    end.
Proof. reflexivity. Qed.

(** The invariant is kept by every iteration that goes on. *)
Lemma iteration_preserves m st st' :
  Inv deflate inputs m st ->
  iteration deflate args st = Next st' ->
  Inv deflate inputs (S m) st'.
Proof.
  intros I H. rewrite iteration_unfold in H.
  destruct ((0 <? Limit args) && (Limit args <=? read_count st));
    [discriminate|].
  destruct (scan_from args 0 (inputScanners st) (reset_full_len st))
    as [[scs st1]|] eqn:E; [|discriminate].
  pose proof (scan_from_shape _ _ _ _ _ _ E) as (Hscs & HF & Hl & Hr & Ho).
  simpl in Hl, Hr, Ho.
  rewrite (inv_scanners _ _ _ _ I) in Hscs, HF, E.
  rewrite tails_skipn in Hscs. rewrite nonempty_skipn in HF.
  assert (Hph : Z.rem (line_num st1) 4 = Z.of_nat (m mod 4)).
  { rewrite Hl, (inv_line_num _ _ _ _ I). apply rem4_of_nat. }
  pose proof (Nat.mod_upper_bound m 4 ltac:(lia)) as Hlt.
  unfold finish_line in H. simpl in H. rewrite Hph in H.
  destruct (Nat.eq_dec (m mod 4) 1) as [P1|P1].
  - (* sequence offset: a row is printed *)
    rewrite P1 in H. simpl in H.
    destruct inputs as [|s0 others] eqn:Ei.
    { simpl in E. inversion E; subst st1. simpl in H.
      destruct (inv_none _ _ _ _ I eq_refl) as [_ Hz]. rewrite Hz in H.
      discriminate. }
    rewrite <- Ei in *.
    assert (Hne : inputs <> []) by (rewrite Ei; discriminate).
    destruct (inv_fresh _ _ _ _ I Hne P1) as (Hz & Hb & Hn).
    eapply scan_from_seq in E;
      [| simpl; rewrite (inv_line_num _ _ _ _ I), rem4_of_nat, P1; reflexivity
       | simpl; exact Hz | reflexivity].
    destruct E as (Hf & Hrn & z' & Hz' & Hc' & Ha & Hw).
    simpl in Hf, Hrn, Ha, Hw. rewrite heads_skipn in Hf, Ha.
    rewrite Hz' in H.
    inversion H; subst st'; clear H.
    pose proof (phase_seq m P1) as Hm.
    constructor; fields.
    + exact Hscs.
    + rewrite Hl, (inv_line_num _ _ _ _ I). lia.
    + rewrite Hr, (inv_read_count _ _ _ _ I), rows_before_S, P1. simpl. lia.
    + rewrite Ho, (inv_output _ _ _ _ I), rows_before_S, P1. simpl Nat.eqb.
      cbv iota. rewrite seq_S, map_app. simpl. f_equal. f_equal.
      rewrite Hw, Hc', Ha, Hrn, Hn, Hf, Hb.
      unfold read_row, Zlib.container, seq_lines. rewrite <- Hm.
      replace (m - 1)%nat with (4 * rows_before m)%nat by lia.
      reflexivity.
    + intros s Hs. apply HF in Hs. lia.
    + intros Hnil. contradiction.
    + intros _ P. exfalso.
      pose proof (Nat.div_mod_eq m 4). pose proof (Nat.div_mod_eq (S m) 4).
      lia.
    + intros _ _. eexists. split; [reflexivity|].
      cbn [Zlib.closed Zlib.accepted]. split; [reflexivity | split].
      * rewrite Ha. unfold seq_lines.
        replace (4 * (S m / 4) + 1)%nat with m; [reflexivity|].
        pose proof (Nat.div_mod_eq m 4). pose proof (Nat.div_mod_eq (S m) 4).
        pose proof (Nat.mod_upper_bound (S m) 4). lia.
      * rewrite Hw, Hc', Hb. reflexivity.
  - (* no row at this offset *)
    replace (Z.of_nat (m mod 4) =? 1) with false in H
      by (symmetry; apply Z.eqb_neq; lia).
    inversion H; subst st'; clear H.
    assert (Hrb : rows_before (S m) = rows_before m).
    { rewrite rows_before_S.
      destruct (Nat.eqb_spec (m mod 4) 1); [contradiction | reflexivity]. }
    destruct (Nat.eq_dec (m mod 4) 0) as [P0|P0].
    + (* header offset *)
      assert (Hp0 : Z.rem (line_num (reset_full_len st)) 4 = 0).
      { simpl. rewrite (inv_line_num _ _ _ _ I), rem4_of_nat, P0.
        reflexivity. }
      constructor; fields.
      * exact Hscs.
      * rewrite Hl, (inv_line_num _ _ _ _ I). lia.
      * rewrite Hr, Hrb. apply (inv_read_count _ _ _ _ I).
      * rewrite Ho, Hrb. apply (inv_output _ _ _ _ I).
      * intros s Hs. apply HF in Hs. lia.
      * intros Hnil. destruct (inv_none _ _ _ _ I Hnil) as [Hm Hz].
        split.
        -- destruct m as [|[|m']]; [lia | discriminate P0 | lia].
        -- rewrite Hnil in E. simpl in E. inversion E; subst st1. exact Hz.
      * intros Hne _. destruct inputs as [|s0 others]; [contradiction|].
        simpl in E. simpl hd.
        assert (Hs0 : (m < List.length s0)%nat) by (apply HF; now left).
        rewrite (skipn_cons _ _ Hs0) in E. simpl in E.
        rewrite (on_line_header_first _ _ _ Hp0) in E.
        destruct (negb (HasPrefix (line_at s0 m) "@")); [discriminate|].
        match type of E with
        | match scan_from _ _ _ ?s with _ => _ end = _ => set (sth := s) in *
        end.
        destruct (scan_from args 1 (map (skipn m) others) sth)
          as [[rest' st2]|] eqn:E2; [|discriminate].
        inversion E; subst st2; clear E.
        apply scan_from_header_later_inv in E2; [| exact Hp0 | lia].
        subst st1. simpl. replace (m - 0)%nat with m by lia. auto.
      * intros _ P. exfalso.
        pose proof (Nat.div_mod_eq m 4). pose proof (Nat.div_mod_eq (S m) 4).
        lia.
    + (* separator or quality offset *)
      assert (E' := E).
      rewrite scan_from_quiet in E'.
      * inversion E'; subst st1; clear E'.
        constructor; unfold reset_full_len; fields.
        -- congruence.
        -- rewrite (inv_line_num _ _ _ _ I). lia.
        -- rewrite Hrb. apply (inv_read_count _ _ _ _ I).
        -- rewrite Hrb. apply (inv_output _ _ _ _ I).
        -- intros s Hs. apply HF in Hs. lia.
        -- intros Hnil. destruct (inv_none _ _ _ _ I Hnil) as [Hm Hz].
           exfalso. destruct m as [|[|m']]; [apply P0; reflexivity
                                             | apply P1; reflexivity | lia].
        -- intros _ P. exfalso.
           pose proof (Nat.div_mod_eq m 4).
           pose proof (Nat.div_mod_eq (S m) 4).
           pose proof (Nat.mod_upper_bound (S m) 4). lia.
        -- intros _ P. exfalso.
           pose proof (Nat.div_mod_eq m 4).
           pose proof (Nat.div_mod_eq (S m) 4).
           pose proof (Nat.mod_upper_bound (S m) 4). lia.
      * simpl. rewrite (inv_line_num _ _ _ _ I), rem4_of_nat. lia.
      * simpl. rewrite (inv_line_num _ _ _ _ I), rem4_of_nat. lia.
      * apply nonempty_skipn. exact HF.
Qed.

(** *** Going on *)

Lemma limit_open m st :
  Inv deflate inputs m st -> within_limit args m ->
  (0 <? Limit args) && (Limit args <=? read_count st) = false.
Proof.
  intros I [H|H].
  - replace (0 <? Limit args) with false by (symmetry; apply Z.ltb_ge; lia).
    reflexivity.
  - rewrite (inv_read_count _ _ _ _ I).
    replace (Limit args <=? Z.of_nat (rows_before m)) with false
      by (symmetry; apply Z.leb_gt; lia).
    apply andb_false_r.
Qed.

Lemma limit_shut m st :
  Inv deflate inputs m st ->
  0 < Limit args -> Limit args <= Z.of_nat (rows_before m) ->
  iteration deflate args st = Return Done.
Proof.
  intros I H0 H1. rewrite iteration_unfold.
  rewrite (inv_read_count _ _ _ _ I).
  replace (0 <? Limit args) with true by (symmetry; apply Z.ltb_lt; lia).
  replace (Limit args <=? Z.of_nat (rows_before m)) with true
    by (symmetry; apply Z.leb_le; lia).
  reflexivity.
Qed.

(** A pass splits at any input. *)
Lemma scan_from_app i pre rest st :
  scan_from args i (pre ++ rest) st =
  match scan_from args i pre st with
  | Return o => Return o
  | Next (pre', st1) =>
      match scan_from args (i + Z.of_nat (List.length pre)) rest st1 with
      | Return o => Return o
      | Next (rest', st2) => Next (pre' ++ rest', st2)
      end
  end.
Proof.
  revert i st. induction pre as [|sc pre IH]; intros i st.
  - simpl. rewrite Z.add_0_r.
    destruct (scan_from args i rest st) as [[rest' st2]|]; reflexivity.
  - cbn [app scan_from].
    destruct (Scan sc) as [[line sc']|]; [| destruct (i =? 0); reflexivity].
    destruct (on_line args i line st) as [st0|]; [|reflexivity].
    rewrite IH.
    destruct (scan_from args (i + 1) pre st0) as [[pre' st1]|]; [|reflexivity].
    replace (i + Z.of_nat (List.length (sc :: pre)))
      with (i + 1 + Z.of_nat (List.length pre))
      by (cbn [List.length]; lia).
    destruct (scan_from args (i + 1 + Z.of_nat (List.length pre)) rest st1)
      as [[rest' st2]|]; reflexivity.
Qed.

(** The inputs [pre] at the front, all with a passing line [m], let the
    pass through. *)
Lemma scan_prefix m st pre rest :
  Inv deflate inputs m st -> inputs = pre ++ rest -> pre <> [] ->
  line_ok args pre m ->
  exists st1,
    scan_from args 0 (map (skipn m) pre) (reset_full_len st) =
      Next (map (skipn (S m)) pre, st1) /\
    line_num st1 = Z.of_nat m /\
    ((m mod 4 = 0)%nat -> read_name st1 = name_of (line_at (hd [] pre) m)) /\
    ((m mod 4 = 1)%nat -> exists z, zwriter st1 = Some z).
Proof.
  intros I Ei Hpre [Hlen Hhead].
  assert (Hne : inputs <> []).
  { rewrite Ei. destruct pre; [contradiction | discriminate]. }
  assert (Hph : Z.rem (line_num (reset_full_len st)) 4 = Z.of_nat (m mod 4)).
  { simpl. rewrite (inv_line_num _ _ _ _ I). apply rem4_of_nat. }
  pose proof (Nat.mod_upper_bound m 4 ltac:(lia)) as Hlt.
  apply nonempty_skipn in Hlen.
  destruct (Nat.eq_dec (m mod 4) 0) as [P0|P0];
    [| destruct (Nat.eq_dec (m mod 4) 1) as [P1|P1]].
  - (* header offset *)
    rewrite P0 in Hph. destruct (Hhead P0) as [Hsig Hrest].
    destruct pre as [|s0 others]; [contradiction|]. simpl hd in *.
    assert (Hs0 : (m < List.length s0)%nat).
    { apply nonempty_skipn with (ss := s0 :: others); [exact Hlen | now left]. }
    cbn [map]. rewrite (skipn_cons _ _ Hs0). cbn [scan_from Scan].
    rewrite (on_line_header_first _ _ _ Hph). rewrite Hsig. cbn [negb].
    rewrite scan_from_header_later.
    + eexists. split; [| split; [| split]].
      * rewrite tails_skipn. reflexivity.
      * simpl. apply (inv_line_num _ _ _ _ I).
      * reflexivity.
      * intros P1. rewrite P0 in P1. discriminate.
    + exact Hph.
    + lia.
    + apply Forall_map. apply Forall_forall. intros s Hs. split.
      * apply skipn_nonempty.
        apply nonempty_skipn with (ss := s0 :: others);
          [exact Hlen | now right].
      * rewrite hd_skipn. cbn [read_name]. apply Hrest. exact Hs.
  - (* sequence offset *)
    rewrite P1 in Hph.
    destruct (inv_fresh _ _ _ _ I Hne P1) as (Hz & _).
    destruct (scan_from_seq_goes args 0 (map (skipn m) pre)
                (reset_full_len st) Zlib.NewWriter Hph Hz Hlen) as [st1 E].
    exists st1. rewrite E, tails_skipn.
    pose proof (scan_from_shape _ _ _ _ _ _ E) as (_ & _ & Hl & _).
    pose proof (scan_from_seq _ _ _ _ _ _ _ Hph Hz eq_refl E)
      as (_ & _ & z' & Hz' & _).
    repeat split.
    + rewrite Hl. simpl. apply (inv_line_num _ _ _ _ I).
    + intros P. rewrite P1 in P. discriminate.
    + intros _. exists z'. exact Hz'.
  - (* separator or quality offset *)
    rewrite scan_from_quiet;
      [| rewrite Hph; lia | rewrite Hph; lia | exact Hlen].
    eexists. rewrite tails_skipn. repeat split.
    + simpl. apply (inv_line_num _ _ _ _ I).
    + intros P. contradiction.
    + intros P. contradiction.
Qed.

(** An iteration whose line is fine on every input goes on. *)
Lemma iteration_goes m st :
  Inv deflate inputs m st -> inputs <> [] ->
  within_limit args m -> line_ok args inputs m ->
  exists st', iteration deflate args st = Next st'.
Proof.
  intros I Hne Hlim Hok. rewrite iteration_unfold.
  rewrite (limit_open _ _ I Hlim).
  destruct (scan_prefix m st inputs [] I (eq_sym (app_nil_r _)) Hne Hok)
    as (st1 & E & Hl & _ & Hz).
  rewrite (inv_scanners _ _ _ _ I), E.
  unfold finish_line. fields. rewrite Hl, rem4_of_nat.
  destruct (Nat.eq_dec (m mod 4) 1) as [P1|P1].
  - rewrite P1. simpl. destruct (Hz P1) as [z ->]. eexists. reflexivity.
  - replace (Z.of_nat (m mod 4) =? 1) with false
      by (symmetry; apply Z.eqb_neq; lia).
    eexists. reflexivity.
Qed.

(** *** Stopping *)

(** Input 0 has no line [m]: the closure returns [nil]. *)
Lemma iteration_eof m st s0 others :
  Inv deflate inputs m st -> inputs = s0 :: others ->
  (List.length s0 <= m)%nat ->
  iteration deflate args st = Return Done.
Proof.
  intros I Ei Hlen. rewrite iteration_unfold.
  destruct ((0 <? Limit args) && (Limit args <=? read_count st));
    [reflexivity|].
  rewrite (inv_scanners _ _ _ _ I), Ei. cbn [map].
  rewrite skipn_all2 by exact Hlen. reflexivity.
Qed.

(** What input number [length pre] does to the pass when the inputs
    before it let it through. *)
Lemma iteration_at m st pre s post :
  Inv deflate inputs m st -> inputs = pre ++ s :: post -> pre <> [] ->
  within_limit args m -> line_ok args pre m ->
  exists st1,
    line_num st1 = Z.of_nat m /\
    ((m mod 4 = 0)%nat -> read_name st1 = name_of (line_at (hd [] pre) m)) /\
    iteration deflate args st =
    match scan_from args (Z.of_nat (List.length pre))
            (map (skipn m) (s :: post)) st1 with
    | Return o => Return o
    | Next (rest', st2) =>
        finish_line deflate
          {| inputScanners := map (skipn (S m)) pre ++ rest';
             line_num := line_num st2; read_count := read_count st2;
             read_name := read_name st2; read_buf := read_buf st2;
             zwriter := zwriter st2; full_len := full_len st2;
             output := output st2 |}
    end.
Proof.
  intros I Ei Hpre Hlim Hok.
  destruct (scan_prefix m st pre (s :: post) I Ei Hpre Hok)
    as (st1 & E & Hl & Hn & _).
  exists st1. split; [exact Hl | split; [exact Hn|]].
  rewrite iteration_unfold, (limit_open _ _ I Hlim).
  rewrite (inv_scanners _ _ _ _ I), Ei, map_app.
  rewrite (scan_from_app 0 (map (skipn m) pre) (map (skipn m) (s :: post))).
  rewrite E, length_map. simpl Z.add.
  match goal with
  | |- match match ?x with _ => _ end with _ => _ end =
       match ?y with _ => _ end =>
      change y with x; destruct x as [[rest' st2]|]; reflexivity
  end.
Qed.


(** A header line without the sigil, on input 0 or on a later one. *)
Lemma iteration_malformed_first m st s0 others :
  Inv deflate inputs m st -> inputs = s0 :: others ->
  within_limit args m -> (m mod 4 = 0)%nat -> (m < List.length s0)%nat ->
  HasPrefix (line_at s0 m) "@" = false ->
  iteration deflate args st =
  Return (Failed (MalformedRecord (Z.of_nat m) (line_at s0 m))).
Proof.
  intros I Ei Hlim P0 Hlen Hsig.
  rewrite iteration_unfold, (limit_open _ _ I Hlim).
  rewrite (inv_scanners _ _ _ _ I), Ei. cbn [map].
  rewrite (skipn_cons _ _ Hlen). cbn [scan_from Scan].
  rewrite on_line_header_first.
  - rewrite Hsig. simpl. rewrite (inv_line_num _ _ _ _ I). reflexivity.
  - simpl. rewrite (inv_line_num _ _ _ _ I), rem4_of_nat, P0. reflexivity.
Qed.

Lemma iteration_malformed_later m st pre s post :
  Inv deflate inputs m st -> inputs = pre ++ s :: post -> pre <> [] ->
  within_limit args m -> line_ok args pre m ->
  (m mod 4 = 0)%nat -> (m < List.length s)%nat ->
  HasPrefix (line_at s m) "@" = false ->
  iteration deflate args st =
  Return (Failed (MalformedRecord (Z.of_nat m) (line_at s m))).
Proof.
  intros I Ei Hpre Hlim Hok P0 Hlen Hsig.
  destruct (iteration_at m st pre s post I Ei Hpre Hlim Hok)
    as (st1 & Hl & _ & ->).
  cbn [map]. rewrite (skipn_cons _ _ Hlen). cbn [scan_from Scan].
  rewrite on_line_header_later.
  - rewrite Hsig, Hl. reflexivity.
  - rewrite Hl, rem4_of_nat, P0. reflexivity.
  - destruct pre; [contradiction | simpl; lia].
Qed.


(** *** The whole run *)

Lemma loop_final fuel m st :
  Inv deflate inputs m st ->
  (List.length (hd [] inputs) + 2 - m <= fuel)%nat ->
  (forall j, (j < m)%nat -> passed deflate args inputs j) ->
  exists o stf mf,
    loop deflate args fuel st = Some (o, stf) /\
    Inv deflate inputs mf stf /\
    iteration deflate args stf = Return o /\
    (forall j, (j < mf)%nat -> passed deflate args inputs j).
Proof.
  revert m st. induction fuel as [|fuel IH]; intros m st I Hfuel Hpast.
  - exfalso. destruct inputs as [|s0 others] eqn:Ei.
    + destruct (inv_none _ _ _ _ I eq_refl) as [Hm _].
      cbn [hd List.length] in Hfuel. lia.
    + pose proof (inv_bound _ _ _ _ I s0 (or_introl eq_refl)).
      cbn [hd] in Hfuel. lia.
  - cbn [loop]. destruct (iteration deflate args st) as [st'|o] eqn:E.
    + apply (IH (S m)).
      * eapply iteration_preserves; eassumption.
      * lia.
      * intros j Hj. destruct (Nat.eq_dec j m) as [->|Hjm].
        -- exists st, st'. auto.
        -- apply Hpast. lia.
    + exists o, st, m. auto.
Qed.

(** The invariant describes every state the loop goes through. *)
Lemma visited_inv fuel m st j st' :
  Inv deflate inputs m st ->
  nth_error (visited deflate args fuel st) j = Some st' ->
  Inv deflate inputs (m + j) st'.
Proof.
  revert m st j. induction fuel as [|fuel IH]; intros m st j I H.
  - destruct j; discriminate.
  - cbn [visited] in H. destruct j as [|j].
    + cbn [nth_error] in H. inversion H; subst st'.
      rewrite Nat.add_0_r. exact I.
    + cbn [nth_error] in H.
      destruct (iteration deflate args st) as [st1|o] eqn:E.
      * replace (m + S j)%nat with (S m + j)%nat by lia.
        apply (IH (S m) st1); [|exact H].
        eapply iteration_preserves; eassumption.
      * destruct j; discriminate.
Qed.

(** Every run ends, in a state the invariant describes. *)
Lemma run_final :
  exists o stf mf,
    run deflate args inputs = Some (o, stf) /\
    Inv deflate inputs mf stf /\
    iteration deflate args stf = Return o /\
    (forall j, (j < mf)%nat -> passed deflate args inputs j).
Proof.
  unfold run, enough. apply (loop_final _ 0).
  - apply Inv_initial.
  - lia.
  - intros j Hj. lia.
Qed.

(** If every line before [M] is fine and iteration [M] must return [o],
    the run ends at [M] with [o]. *)
Lemma run_stops_at (M : nat) (o : outcome) :
  inputs <> [] ->
  (forall j, (j < M)%nat -> within_limit args j /\ line_ok args inputs j) ->
  (forall st, Inv deflate inputs M st ->
              iteration deflate args st = Return o) ->
  exists stf, run deflate args inputs = Some (o, stf) /\
              Inv deflate inputs M stf.
Proof.
  intros Hne Hbefore Hstop.
  destruct run_final as (o' & stf & mf & Hrun & I & Hret & Hpast).
  destruct (Nat.lt_trichotomy mf M) as [Hlt | [-> | Hgt]].
  - exfalso. destruct (Hbefore mf Hlt) as [Hlim Hok].
    destruct (iteration_goes mf stf I Hne Hlim Hok) as [st' E]. congruence.
  - exists stf. rewrite (Hstop stf I) in Hret.
    inversion Hret; subst. auto.
  - exfalso. destruct (Hpast M Hgt) as (st & st' & IM & E).
    rewrite (Hstop st IM) in E. discriminate.
Qed.

End Loop.

End LoopFacts.

Module RunFacts.

Import Text Reader Lockstep LockstepFacts PassFacts LoopFacts.

Lemma nth_error_map_seq {A : Type} (f : nat -> A) (n k : nat) (a : A) :
  nth_error (map f (seq 0 n)) k = Some a -> (k < n)%nat /\ a = f k.
Proof.
  intros H.
  assert (Hk : (k < n)%nat).
  { assert (Hs : nth_error (map f (seq 0 n)) k <> None) by congruence.
    apply nth_error_Some in Hs. rewrite length_map, length_seq in Hs.
    exact Hs. }
  split; [exact Hk|].
  rewrite nth_error_map, nth_error_seq in H.
  destruct (Nat.ltb_spec k n); [|lia]. simpl in H. congruence.
Qed.

Lemma rows_before_gt (m k : nat) :
  (k < rows_before m)%nat <-> (4 * k + 2 <= m)%nat.
Proof.
  unfold rows_before.
  pose proof (Nat.div_mod_eq (m + 2) 4).
  pose proof (Nat.mod_upper_bound (m + 2) 4). lia.
Qed.


(** Row [k] of a run is the row of read [k], and every input holds the
    header and the sequence line of that read. *)
Lemma run_rows deflate args inputs k r :
  nth_error (rows_of (run deflate args inputs)) k = Some r ->
  r = read_row deflate inputs k /\ inputs <> [] /\
  forall s, In s inputs -> (4 * k + 1 < List.length s)%nat.
Proof.
  destruct (run_final deflate args inputs) as (o & st & mf & Hrun & I & _).
  rewrite Hrun. cbn [rows_of]. rewrite (inv_output _ _ _ _ I). intros H.
  apply nth_error_map_seq in H. destruct H as [Hk ->].
  apply rows_before_gt in Hk.
  split; [reflexivity | split].
  - intros Hnil. destruct (inv_none _ _ _ _ I Hnil) as [Hm _]. lia.
  - intros s Hs. pose proof (inv_bound _ _ _ _ I s Hs). lia.
Qed.

Lemma length_bytes_of (s : string) :
  List.length (bytes_of s) = String.length s.
Proof.
  unfold bytes_of, list_byte_of_string. rewrite length_map.
  induction s as [|c s IH]; simpl; congruence.
Qed.

Lemma length_container deflate data :
  Z.of_nat (List.length (Zlib.container deflate data)) =
  2 + Z.of_nat (List.length (deflate data)) + 4.
Proof.
  unfold Zlib.container. rewrite !length_app, !Nat2Z.inj_add.
  change (Z.of_nat (List.length Zlib.header)) with 2.
  change (Z.of_nat (List.length (Zlib.be32 (Zlib.adler32 data)))) with 4.
  lia.
Qed.

(** A run whose lines before [M] are all fine gets at least to
    iteration [M]. *)
Lemma run_reaches deflate args inputs (M : nat) :
  inputs <> [] ->
  (forall j, (j < M)%nat -> within_limit args j /\ line_ok args inputs j) ->
  exists o st mf, run deflate args inputs = Some (o, st) /\
                  Inv deflate inputs mf st /\ (M <= mf)%nat.
Proof.
  intros Hne Hbefore.
  destruct (run_final deflate args inputs)
    as (o & st & mf & Hrun & I & Hret & _).
  exists o, st, mf. split; [exact Hrun | split; [exact I|]].
  destruct (Nat.le_gt_cases M mf) as [H|H]; [exact H|]. exfalso.
  destruct (Hbefore mf H) as [Hlim Hok].
  destruct (iteration_goes deflate args inputs mf st I Hne Hlim Hok) as [st' E].
  congruence.
Qed.

Lemma length_rows deflate inputs m st :
  Inv deflate inputs m st -> List.length (output st) = rows_before m.
Proof.
  intros I. rewrite (inv_output _ _ _ _ I), length_map, length_seq.
  reflexivity.
Qed.

End RunFacts.

Module TestFacts.

Import Text Reader Lockstep LockstepFacts.

Lemma line_okb_spec args inputs m :
  line_okb args inputs m = true <-> line_ok args inputs m.
Proof.
  unfold line_okb, line_ok. rewrite andb_true_iff, forallb_forall.
  split; intros [Hlen Hhead]; (split; [| clear Hlen]).
  - intros s Hs. apply Nat.ltb_lt. auto.
  - intros P0. rewrite P0 in Hhead. simpl in Hhead.
    apply andb_true_iff in Hhead. destruct Hhead as [Hsig Hrest].
    split; [exact Hsig|]. rewrite forallb_forall in Hrest. exact Hrest.
  - intros s Hs. apply Nat.ltb_lt. auto.
  - destruct (Nat.eqb_spec (m mod 4) 0) as [P0|P0]; [|reflexivity].
    destruct (Hhead P0) as [Hsig Hrest].
    apply andb_true_iff. split; [exact Hsig|].
    apply forallb_forall. exact Hrest.
Qed.

Lemma within_limitb_spec args m :
  within_limitb args m = true <-> within_limit args m.
Proof.
  unfold within_limitb, within_limit.
  rewrite orb_true_iff, Z.leb_le, Z.ltb_lt. reflexivity.
Qed.

Lemma fine_spec args inputs M :
  fine args inputs M = true ->
  inputs <> [] /\
  forall j, (j < M)%nat -> within_limit args j /\ line_ok args inputs j.
Proof.
  unfold fine. destruct inputs as [|s0 others]; [discriminate|].
  intros H. split; [discriminate|]. intros j Hj.
  rewrite forallb_forall in H.
  specialize (H j). rewrite in_seq in H.
  specialize (H ltac:(lia)). apply andb_true_iff in H.
  rewrite within_limitb_spec, line_okb_spec in H. exact H.
Qed.

Lemma fine_shorter args inputs M M' :
  (M' <= M)%nat -> fine args inputs M = true -> fine args inputs M' = true.
Proof.
  unfold fine. destruct inputs as [|s0 others]; [auto|].
  intros Hle H. rewrite forallb_forall in *.
  intros j Hj. apply H. rewrite in_seq in *. lia.
Qed.

Lemma headers_ok_spec s j :
  headers_ok s = true -> (j < List.length s)%nat -> (j mod 4 = 0)%nat ->
  HasPrefix (line_at s j) "@" = true.
Proof.
  unfold headers_ok. rewrite forallb_forall. intros H Hj P0.
  specialize (H j). rewrite in_seq in H. specialize (H ltac:(lia)).
  rewrite P0 in H. exact H.
Qed.


(** On one input with good headers every line it has is fine. *)
Lemma single_line_ok args s j :
  headers_ok s = true -> (j < List.length s)%nat -> line_ok args [s] j.
Proof.
  intros H Hj. split.
  - intros s' [<-|[]]. exact Hj.
  - intros P0. split.
    + apply headers_ok_spec; assumption.
    + intros s' [].
Qed.




End TestFacts.

(** ** The claims *)

Module Claims.

Import Text Reader Lockstep LockstepFacts PassFacts LoopFacts RunFacts.
Import TestFacts Examples.

(** *** C1 *)

(** C1, as stated, fails: on two inputs with the sequence lines [ACGT]
    and [GG] the printed raw length is 6, not the 4 of the first input
    alone. *)
Lemma C1_second_input_counts :
  map row_full_len
    (rows_of (run Zlib.stored defaults [pair_first; pair_second])) = [6] /\
  map row_full_len
    (map (first_only_row Zlib.stored [pair_first; pair_second]) (seq 0 1))
    = [4].
Proof. split; vm_compute; reflexivity. Qed.

(** C1, amended: on two inputs every row measures both sequence lines.
    Its raw length is the sum of their lengths, and the compressor is fed
    the first input's sequence line and a line feed, then the second
    input's sequence line and a line feed. *)
Theorem C1_both_sequences_measured deflate args s0 s1 k r :
  nth_error (rows_of (run deflate args [s0; s1])) k = Some r ->
  (4 * k + 1 < List.length s0)%nat /\ (4 * k + 1 < List.length s1)%nat /\
  row_full_len r =
    len (line_at s0 (4 * k + 1)) + len (line_at s1 (4 * k + 1)) /\
  row_compressed_len r =
    Z.of_nat (List.length
      (Zlib.container deflate
         (bytes_of (line_at s0 (4 * k + 1) ++ LF) ++
          bytes_of (line_at s1 (4 * k + 1) ++ LF)))) /\
  row_r r = Float64.div (Float64.of_int (row_full_len r))
              (Float64.of_int (row_compressed_len r)).
Proof.
  intros H. apply run_rows in H. destruct H as (-> & _ & Hlen).
  split; [apply Hlen; simpl; auto | split; [apply Hlen; simpl; auto|]].
  unfold read_row, seq_lines, raw_total, fed_bytes. cbn [map fold_right
    List.concat row_full_len row_compressed_len row_r].
  rewrite app_nil_r, Z.add_0_r. auto.
Qed.

Lemma C1_both_sequences_measured_witness :
  exists r,
    nth_error
      (rows_of (run Zlib.stored defaults [pair_first; pair_second])) 0
      = Some r /\
    row_full_len r = len "ACGT" + len "GG".
Proof.
  eexists. split.
  - vm_compute. reflexivity.
  - eapply (C1_both_sequences_measured Zlib.stored defaults
              pair_first pair_second 0).
    vm_compute. reflexivity.
Defined.

(** *** C2 *)

(** C2, as stated, fails: an input that ends after the sequence line of
    its read, before the separator and the quality line, still gets the
    row of that read. *)
Lemma C2_row_without_quality_line :
  map row_name (rows_of (run Zlib.stored defaults [cut_after_sequence]))
  = ["r1"].
Proof. vm_compute. reflexivity. Qed.

(** C2, amended: a row is printed only after every input has produced
    the header and the sequence line of its read, and it is printed as
    soon as they have: when the lines up to the sequence line of read [k]
    are fine on every input and the limit has not stopped the run, row
    [k] is there, whatever follows the sequence line. *)
Theorem C2_row_at_sequence_line deflate args inputs k :
  (forall r, nth_error (rows_of (run deflate args inputs)) k = Some r ->
     forall s, In s inputs -> (4 * k + 1 < List.length s)%nat) /\
  (fine args inputs (4 * k + 2) = true ->
   (k < List.length (rows_of (run deflate args inputs)))%nat).
Proof.
  split.
  - intros r H. apply run_rows in H. apply H.
  - intros Hfine. apply fine_spec in Hfine. destruct Hfine as [Hne Hfine].
    destruct (run_reaches deflate args inputs (4 * k + 2) Hne Hfine)
      as (o & st & mf & Hrun & I & Hmf).
    rewrite Hrun. cbn [rows_of]. rewrite (length_rows _ _ _ _ I).
    apply rows_before_gt. exact Hmf.
Qed.

Lemma C2_row_at_sequence_line_witness :
  fine defaults [cut_after_sequence] (4 * 0 + 2) = true /\
  (0 < List.length
         (rows_of (run Zlib.stored defaults [cut_after_sequence])))%nat.
Proof.
  split.
  - reflexivity.
  - apply (proj2 (C2_row_at_sequence_line Zlib.stored defaults
                    [cut_after_sequence] 0)).
    reflexivity.
Defined.

(** *** C3 *)




(** *** C4 *)

(** C4, as stated, fails in its last sentence: without a limit, an input
    with one complete cycle followed by the header and the sequence line
    of a second read yields two rows. *)
Lemma C4_rows_exceed_complete_cycles :
  cycles one_and_a_half = 1%nat /\
  List.length (rows_of (run Zlib.stored defaults [one_and_a_half])) = 2%nat.
Proof. split; vm_compute; reflexivity. Qed.

Lemma rows_before_spec (m : nat) :
  (4 * rows_before m <= m + 2 < 4 * rows_before m + 4)%nat.
Proof.
  unfold rows_before.
  pose proof (Nat.div_mod_eq (m + 2) 4).
  pose proof (Nat.mod_upper_bound (m + 2) 4). lia.
Qed.

(** With a positive limit no run prints more rows than the limit, and a
    run that printed as many ended normally. *)
Lemma limit_caps deflate args inputs :
  0 < Limit args ->
  Z.of_nat (List.length (rows_of (run deflate args inputs))) <= Limit args /\
  (Z.of_nat (List.length (rows_of (run deflate args inputs))) = Limit args ->
   outcome_of (run deflate args inputs) = Some Done).
Proof.
  intros Hpos.
  destruct (run_final deflate args inputs)
    as (o & st & mf & Hrun & I & Hret & Hpast).
  rewrite Hrun. cbn [rows_of outcome_of option_map fst].
  rewrite (length_rows _ _ _ _ I).
  assert (Hcap : Z.of_nat (rows_before mf) <= Limit args).
  { destruct (Z.le_gt_cases (Z.of_nat (rows_before mf)) (Limit args))
      as [H|H]; [exact H | exfalso].
    set (j := (4 * Z.to_nat (Limit args) - 2)%nat).
    pose proof (rows_before_spec mf). pose proof (rows_before_spec j).
    assert (Hj : (j < mf)%nat) by (unfold j in *; lia).
    destruct (Hpast j Hj) as (stj & stj' & Ij & Ej).
    rewrite (limit_shut deflate args inputs j stj Ij Hpos) in Ej;
      [discriminate | unfold j in *; lia]. }
  split; [exact Hcap|]. intros Heq.
  rewrite (limit_shut deflate args inputs mf st I Hpos) in Hret by lia.
  congruence.
Qed.

(** The rows of a run on one input with good headers. *)
Lemma single_input_rows deflate args s :
  headers_ok s = true ->
  outcome_of (run deflate args [s]) = Some Done /\
  List.length (rows_of (run deflate args [s])) =
    if 0 <? Limit args
    then Nat.min (Z.to_nat (Limit args)) (rows_before (List.length s))
    else rows_before (List.length s).
Proof.
  intros Hok.
  pose proof (rows_before_spec (List.length s)) as Hlen.
  destruct (Z.ltb_spec 0 (Limit args)) as [Hpos|Hnone].
  - destruct (Z.le_gt_cases (Limit args)
                (Z.of_nat (rows_before (List.length s)))) as [Hcut|Hall].
    + (* the limit stops the run *)
      set (M := (4 * Z.to_nat (Limit args) - 2)%nat).
      pose proof (rows_before_spec M) as HM.
      destruct (run_stops_at deflate args [s] M Done) as (st & Hrun & I).
      * discriminate.
      * intros j Hj. pose proof (rows_before_spec j). split.
        -- right. unfold M in *. lia.
        -- apply single_line_ok; [exact Hok | unfold M in *; lia].
      * intros st I. apply (limit_shut deflate args [s] M st I Hpos).
        unfold M in *. lia.
      * rewrite Hrun. cbn [rows_of outcome_of option_map fst].
        rewrite (length_rows _ _ _ _ I). split; [reflexivity|].
        unfold M in *. lia.
    + (* the input ends first *)
      destruct (run_stops_at deflate args [s] (List.length s) Done)
        as (st & Hrun & I).
      * discriminate.
      * intros j Hj. pose proof (rows_before_spec j). split.
        -- right. lia.
        -- apply single_line_ok; [exact Hok | lia].
      * intros st I.
        apply (iteration_eof deflate args [s] (List.length s) st s []); auto.
      * rewrite Hrun. cbn [rows_of outcome_of option_map fst].
        rewrite (length_rows _ _ _ _ I). split; [reflexivity | lia].
  - destruct (run_stops_at deflate args [s] (List.length s) Done)
      as (st & Hrun & I).
    + discriminate.
    + intros j Hj. split.
      * left. exact Hnone.
      * apply single_line_ok; [exact Hok | lia].
    + intros st I.
      apply (iteration_eof deflate args [s] (List.length s) st s []); auto.
    + rewrite Hrun. cbn [rows_of outcome_of option_map fst].
      rewrite (length_rows _ _ _ _ I). split; reflexivity.
Qed.

(** C4, amended: with a positive limit no run prints more rows than the
    limit, and a run that printed as many ended normally.  A run on one
    input with good headers ends normally and prints one row per read
    whose header and sequence line are present, capped by a positive
    limit; when the input consists of complete cycles that is one row per
    complete cycle. *)
Theorem C4_rows_and_limit deflate args inputs s :
  headers_ok s = true ->
  (0 < Limit args ->
   Z.of_nat (List.length (rows_of (run deflate args inputs))) <= Limit args /\
   (Z.of_nat (List.length (rows_of (run deflate args inputs))) = Limit args ->
    outcome_of (run deflate args inputs) = Some Done)) /\
  outcome_of (run deflate args [s]) = Some Done /\
  List.length (rows_of (run deflate args [s])) =
    (if 0 <? Limit args
     then Nat.min (Z.to_nat (Limit args)) ((List.length s + 2) / 4)
     else ((List.length s + 2) / 4)%nat) /\
  ((List.length s mod 4 = 0)%nat ->
   ((List.length s + 2) / 4)%nat = cycles s).
Proof.
  intros Hok. split; [apply limit_caps | ].
  destruct (single_input_rows deflate args s Hok) as [Hdone Hrows].
  split; [exact Hdone | split; [exact Hrows|]].
  intros Hmod. unfold cycles.
  pose proof (Nat.div_mod_eq (List.length s) 4).
  pose proof (Nat.div_mod_eq (List.length s + 2) 4).
  pose proof (Nat.mod_upper_bound (List.length s + 2) 4). lia.
Qed.

Lemma C4_rows_and_limit_witness :
  headers_ok five_reads = true /\
  outcome_of (run Zlib.stored limit_two [five_reads]) = Some Done /\
  List.length (rows_of (run Zlib.stored limit_two [five_reads])) = 2%nat.
Proof.
  assert (H : headers_ok five_reads = true) by reflexivity.
  split; [exact H|].
  destruct (C4_rows_and_limit Zlib.stored limit_two [five_reads] five_reads H)
    as (_ & Hdone & Hrows & _).
  split; [exact Hdone | exact Hrows].
Defined.

(** *** C6 *)

(** C6, as stated, fails: the message does not tell on which input the
    bad header was.  The same line without a sigil, once on input 0 and
    once on input 1, gives the same message. *)
Lemma C6_message_omits_input :
  error_text (run Zlib.stored defaults [bare; headed]) =
    Some ("Line 0 should be a fastq header line, got: ACGT" ++ LF)%string /\
  error_text (run Zlib.stored defaults [headed; bare]) =
    Some ("Line 0 should be a fastq header line, got: ACGT" ++ LF)%string.
Proof. split; vm_compute; reflexivity. Qed.

(** C6, amended: when the run gets to a line at cycle offset 0 that does
    not start with the sigil (the lines before it are fine, the inputs in
    front of it pass at that line, the limit has not stopped the run), it
    fails with the MalformedRecord error.  The message names the line
    number counted from 0 and the content of the line, not the input.  The
    rows printed are those of the reads before that line and no other. *)
Theorem C6_malformed_header deflate args pre s post m :
  (m mod 4 = 0)%nat -> (m < List.length s)%nat ->
  HasPrefix (line_at s m) "@" = false ->
  fine args (pre ++ s :: post) m = true ->
  within_limitb args m = true -> front_ok args pre m = true ->
  exists st,
    run deflate args (pre ++ s :: post) =
      Some (Failed (MalformedRecord (Z.of_nat m) (line_at s m)), st) /\
    Error (MalformedRecord (Z.of_nat m) (line_at s m)) =
      ("Line " ++ fmt_d (Z.of_nat m) ++ " should be a fastq header line, got: "
         ++ line_at s m ++ LF)%string /\
    output st = map (read_row deflate (pre ++ s :: post)) (seq 0 (m / 4)).
Proof.
  intros P0 Hlen Hsig Hfine Hlim Hfront.
  apply fine_spec in Hfine. destruct Hfine as [Hne Hfine].
  apply within_limitb_spec in Hlim.
  destruct (run_stops_at deflate args (pre ++ s :: post) m
              (Failed (MalformedRecord (Z.of_nat m) (line_at s m))))
    as (st & Hrun & I).
  - exact Hne.
  - exact Hfine.
  - intros st I. destruct pre as [|p0 pre'].
    + apply (iteration_malformed_first deflate args (s :: post) m st s post);
        auto.
    + apply (iteration_malformed_later deflate args
               ((p0 :: pre') ++ s :: post) m st (p0 :: pre') s post);
        auto; try discriminate.
      apply line_okb_spec. exact Hfront.
  - exists st. split; [exact Hrun | split; [reflexivity|]].
    rewrite (inv_output _ _ _ _ I). f_equal. f_equal.
    unfold rows_before.
    pose proof (Nat.div_mod_eq m 4). pose proof (Nat.div_mod_eq (m + 2) 4).
    pose proof (Nat.mod_upper_bound (m + 2) 4). lia.
Qed.

Lemma C6_malformed_header_witness :
  exists st,
    run Zlib.stored defaults ([headed] ++ bare :: []) =
      Some (Failed (MalformedRecord (Z.of_nat 0) (line_at bare 0)), st) /\
    Error (MalformedRecord (Z.of_nat 0) (line_at bare 0)) =
      ("Line " ++ fmt_d (Z.of_nat 0) ++ " should be a fastq header line, got: "
         ++ line_at bare 0 ++ LF)%string /\
    output st = map (read_row Zlib.stored ([headed] ++ bare :: []))
                  (seq 0 (0 / 4)).
Proof.
  apply (C6_malformed_header Zlib.stored defaults [headed] bare [] 0);
    reflexivity || (vm_compute; lia).
Defined.

(** *** C7 *)









(** *** C8 *)

(** C8 fails on the code: with no positional argument [main] opens no
    input at all, standard input included; the loop scans nothing, and
    its second iteration calls [Close] on the nil writer.  No row is
    printed, whatever standard input holds. *)
Theorem C8_no_argument_never_reads_stdin deflate w args :
  exists st,
    main deflate w args [] = Closure (Some (NilDeref, st)) /\
    output st = [] /\ line_num st = 1 /\ inputScanners st = [].
Proof.
  unfold main, run, enough. cbn [open_inputs hd List.length loop].
  assert (Hlim : forall st, read_count st = 0 ->
            (0 <? Limit args) && (Limit args <=? read_count st) = false).
  { intros st ->. destruct (Z.ltb_spec 0 (Limit args)); [|reflexivity].
    simpl. apply Z.leb_gt. assumption. }
  eexists.
  rewrite iteration_unfold, Hlim by reflexivity.
  cbn [initial inputScanners scan_from reset_full_len line_num
       read_count read_name read_buf zwriter full_len output].
  unfold finish_line at 1.
  cbn [inputScanners line_num read_count read_name read_buf zwriter
       full_len output].
  change (Z.rem 0 4 =? 1) with false. cbv iota.
  rewrite iteration_unfold, Hlim by reflexivity.
  cbn [inputScanners scan_from reset_full_len line_num
       read_count read_name read_buf zwriter full_len output].
  unfold finish_line.
  cbn [inputScanners line_num read_count read_name read_buf zwriter
       full_len output].
  change (Z.rem (0 + 1) 4 =? 1) with true. cbv iota.
  repeat split.
Qed.

(** The same on a concrete standard input holding one complete read. *)
Lemma C8_stdin_example :
  exists st,
    main Zlib.stored stdin_only defaults [] = Closure (Some (NilDeref, st)) /\
    output st = [].
Proof.
  destruct (C8_no_argument_never_reads_stdin Zlib.stored stdin_only defaults)
    as (st & H & Hout & _).
  exists st. split; assumption.
Defined.

(** *** C9 *)

(** C9: the compressed length of row [k] is the size of one whole zlib
    container, two header bytes and four checksum bytes around the
    DEFLATE stream, built from the sequence lines of read [k] alone.  The
    accumulator is fresh for each read and finished once: at the top of
    every iteration at a sequence offset the writer is new and the buffer
    empty, and at the top of the next iteration the writer is closed and
    the buffer holds exactly the container of what that writer
    accepted, the sequence lines of that read. *)
Theorem C9_compressed_length_is_container deflate args inputs k r :
  nth_error (rows_of (run deflate args inputs)) k = Some r ->
  row_compressed_len r =
    Z.of_nat (List.length
      (Zlib.header ++ deflate (fed_bytes (seq_lines inputs k)) ++
       Zlib.be32 (Zlib.adler32 (fed_bytes (seq_lines inputs k))))) /\
  row_compressed_len r =
    2 + Z.of_nat (List.length (deflate (fed_bytes (seq_lines inputs k)))) + 4
  /\
  forall j st,
    nth_error (visited deflate args (enough inputs) (initial inputs)) j
      = Some st ->
    ((j mod 4 = 1)%nat ->
     zwriter st = Some Zlib.NewWriter /\ read_buf st = []) /\
    ((j mod 4 = 2)%nat ->
     exists z, zwriter st = Some z /\ Zlib.closed z = true /\
       Zlib.accepted z = fed_bytes (seq_lines inputs (j / 4)) /\
       read_buf st = Zlib.container deflate (Zlib.accepted z)).
Proof.
  intros H. apply run_rows in H. destruct H as (-> & Hne & _).
  cbn [read_row row_compressed_len].
  split; [reflexivity | split; [apply length_container|]].
  intros j st Hj.
  apply (visited_inv deflate args inputs _ 0 (initial inputs)) in Hj;
    [|apply Inv_initial].
  cbn [Nat.add] in Hj. split; intros P.
  - destruct (inv_fresh _ _ _ _ Hj Hne P) as (Hz & Hb & _). auto.
  - exact (inv_closed _ _ _ _ Hj Hne P).
Qed.

Lemma C9_compressed_length_is_container_witness :
  exists r st,
    nth_error (rows_of (run Zlib.stored defaults [pair_first])) 0 = Some r /\
    row_compressed_len r =
      2 + Z.of_nat (List.length
                      (Zlib.stored (fed_bytes (seq_lines [pair_first] 0)))) + 4
    /\
    nth_error (visited Zlib.stored defaults (enough [pair_first])
                 (initial [pair_first])) 2 = Some st /\
    exists z, zwriter st = Some z /\ Zlib.closed z = true /\
      Zlib.accepted z = fed_bytes (seq_lines [pair_first] (2 / 4)) /\
      read_buf st = Zlib.container Zlib.stored (Zlib.accepted z).
Proof.
  eexists. eexists.
  split; [vm_compute; reflexivity|].
  assert (H := C9_compressed_length_is_container Zlib.stored defaults
                 [pair_first] 0 _ ltac:(vm_compute; reflexivity)).
  destruct H as (_ & Hlen & Hstates).
  split; [exact Hlen|].
  split; [vm_compute; reflexivity|].
  exact (proj2 (Hstates 2%nat _ ltac:(vm_compute; reflexivity)) eq_refl).
Defined.

(** *** C10 *)

Lemma raw_total_nonneg ls : 0 <= raw_total ls.
Proof.
  induction ls as [|l ls IH]; simpl; [lia|]. unfold len. lia.
Qed.

Lemma fed_bytes_length ls :
  (List.length ls <= List.length (fed_bytes ls))%nat.
Proof.
  unfold fed_bytes. induction ls as [|l ls IH]; simpl; [lia|].
  rewrite length_app, length_bytes_of.
  assert (H : String.length (l ++ LF) = S (String.length l)).
  { clear. induction l as [|c l IH]; simpl; [reflexivity | now rewrite IH]. }
  rewrite H. lia.
Qed.

(** C10: every printed row has a compressed length of at least 6, the
    framing bytes of the container, so it is positive also when the
    sequence lines are empty and the raw length is 0; the compressor was
    fed at least the line feed after each sequence line.  The divisor of
    the ratio is never 0, as an [int] and, when it fits an [int], as a
    [float64]. *)
Theorem C10_compressed_length_positive deflate args inputs k r :
  nth_error (rows_of (run deflate args inputs)) k = Some r ->
  6 <= row_compressed_len r /\ row_compressed_len r <> 0 /\
  0 <= row_full_len r /\
  (1 <= List.length (fed_bytes (seq_lines inputs k)))%nat /\
  (row_compressed_len r < 2 ^ 63 ->
   exists m e,
     Float64.of_int (row_compressed_len r) = S754_finite false m e).
Proof.
  intros H. apply run_rows in H. destruct H as (-> & Hne & _).
  cbn [read_row row_compressed_len row_full_len].
  rewrite length_container.
  split; [lia | split; [lia | split; [apply raw_total_nonneg | split]]].
  - pose proof (fed_bytes_length (seq_lines inputs k)) as Hl.
    unfold seq_lines in Hl at 1. rewrite length_map in Hl.
    destruct inputs; [contradiction | cbn [List.length] in Hl; lia].
  - intros Hfit.
    set (body := deflate (fed_bytes (seq_lines inputs k))) in *.
    destruct (FloatFacts.of_int_finite (2 + Z.of_nat (List.length body) + 4))
      as (m & e & Hm & _); [lia|].
    exists m, e. exact Hm.
Qed.

Lemma C10_compressed_length_positive_witness :
  exists r,
    nth_error (rows_of (run Zlib.stored defaults [empty_read])) 0 = Some r /\
    row_full_len r = 0 /\ 6 <= row_compressed_len r.
Proof.
  eexists. split; [| split].
  - vm_compute. reflexivity.
  - reflexivity.
  - apply (C10_compressed_length_positive Zlib.stored defaults
             [empty_read] 0).
    vm_compute. reflexivity.
Defined.

(** *** C5 *)




End Claims.

(** ** Where a run stops *)

Module StopFacts.

Import Text Reader Lockstep LockstepFacts PassFacts LoopFacts RunFacts.

(** At a header offset, the inputs after the first that let the pass
    through carried passing lines. *)
Lemma scan_from_header_later_passes args i scs st scs' st' :
  Z.rem (line_num st) 4 = 0 -> 0 < i ->
  scan_from args i scs st = Next (scs', st') ->
  Forall (fun sc => passes args (read_name st) (hd "" sc) = true) scs.
Proof.
  intros P0. revert i scs' st'.
  induction scs as [|sc rest IH]; intros i scs' st' Hi H.
  - constructor.
  - destruct sc as [|line sc0]; cbn [scan_from Scan] in H.
    + destruct (i =? 0); discriminate.
    + rewrite on_line_header_later in H by (auto; lia).
      destruct (HasPrefix line "@") eqn:Hsig; cbn [negb] in H; [|discriminate].
      destruct (CheckNames args && negb (name_of line =? read_name st)%string)
        eqn:Hchk; [discriminate|].
      destruct (scan_from args (i + 1) rest st) as [[rest' st2]|] eqn:E2;
        [|discriminate].
      constructor.
      * cbn [hd]. unfold passes. rewrite Hsig. cbn [andb].
        destruct (CheckNames args); cbn [negb orb andb] in *; [|reflexivity].
        destruct (name_of line =? read_name st)%string; [reflexivity|].
        discriminate.
      * apply (IH (i + 1) rest' st2); [lia | exact E2].
Qed.

(** A pass from input 0 that goes through saw a fine line [m] on each of
    the inputs it went over, and at a header offset it took the name of
    the read from the first of them. *)
Lemma scan_Next_line_ok args m ss st scs st1 :
  Z.rem (line_num st) 4 = Z.of_nat (m mod 4) -> ss <> [] ->
  scan_from args 0 (map (skipn m) ss) st = Next (scs, st1) ->
  line_ok args ss m /\
  ((m mod 4 = 0)%nat -> read_name st1 = name_of (line_at (hd [] ss) m)).
Proof.
  intros Hph Hne E.
  pose proof (scan_from_shape _ _ _ _ _ _ E) as (_ & HF & _).
  rewrite nonempty_skipn in HF.
  assert (Hhead : (m mod 4 = 0)%nat ->
            HasPrefix (line_at (hd [] ss) m) "@" = true /\
            (forall s, In s (tl ss) ->
               passes args (name_of (line_at (hd [] ss) m)) (line_at s m)
               = true) /\
            read_name st1 = name_of (line_at (hd [] ss) m)).
  { intros P0. rewrite P0 in Hph.
    destruct ss as [|s0 others]; [contradiction|]. cbn [hd tl].
    assert (Hs0 : (m < List.length s0)%nat) by (apply HF; now left).
    cbn [map] in E. rewrite (skipn_cons _ _ Hs0) in E.
    cbn [scan_from Scan] in E.
    rewrite (on_line_header_first _ _ _ Hph) in E.
    destruct (HasPrefix (line_at s0 m) "@") eqn:Hsig; cbn [negb] in E;
      [|discriminate].
    match type of E with
    | match scan_from _ _ _ ?s with _ => _ end = _ => set (sth := s) in *
    end.
    destruct (scan_from args (0 + 1) (map (skipn m) others) sth)
      as [[rest' st2]|] eqn:E2; [|discriminate].
    inversion E; subst st2. clear E.
    assert (Hst : st1 = sth).
    { eapply scan_from_header_later_inv; [exact Hph | | exact E2]. lia. }
    apply scan_from_header_later_passes in E2; [| exact Hph | lia].
    rewrite Forall_map, Forall_forall in E2.
    split; [reflexivity | split].
    - intros s Hs. specialize (E2 s Hs). rewrite hd_skipn in E2. exact E2.
    - rewrite Hst. reflexivity. }
  split.
  - split; [exact HF|]. intros P0.
    destruct (Hhead P0) as (H1 & H2 & _). auto.
  - intros P0. apply (Hhead P0).
Qed.

Section Stop.

Variable deflate : list byte -> list byte.
Variable args : Args.
Variable inputs : list Scanner.

(** An iteration that goes on had a fine line on every input and was not
    stopped by the limit: the converse of [iteration_goes]. *)
Lemma iteration_Next_ok m st st' :
  Inv deflate inputs m st -> inputs <> [] ->
  iteration deflate args st = Next st' ->
  within_limit args m /\ line_ok args inputs m.
Proof.
  intros I Hne H. rewrite iteration_unfold in H.
  destruct ((0 <? Limit args) && (Limit args <=? read_count st)) eqn:Hlim;
    [discriminate|].
  split.
  - unfold within_limit. rewrite (inv_read_count _ _ _ _ I) in Hlim.
    apply andb_false_iff in Hlim. destruct Hlim as [Hl|Hl].
    + left. apply Z.ltb_ge in Hl. exact Hl.
    + right. apply Z.leb_gt in Hl. exact Hl.
  - destruct (scan_from args 0 (inputScanners st) (reset_full_len st))
      as [[scs st1]|] eqn:E; [|discriminate].
    rewrite (inv_scanners _ _ _ _ I) in E.
    apply scan_Next_line_ok in E; [apply E | | exact Hne].
    cbn [reset_full_len line_num].
    rewrite (inv_line_num _ _ _ _ I). apply rem4_of_nat.
Qed.

(** A run on at least one input stops at the first iteration whose line
    is not fine on every input or which the limit forbids. *)
Lemma run_stop_index :
  inputs <> [] ->
  exists o st mf,
    run deflate args inputs = Some (o, st) /\
    Inv deflate inputs mf st /\
    iteration deflate args st = Return o /\
    (forall j, (j < mf)%nat -> within_limit args j /\ line_ok args inputs j) /\
    ~ (within_limit args mf /\ line_ok args inputs mf).
Proof.
  intros Hne.
  destruct (run_final deflate args inputs)
    as (o & st & mf & Hrun & I & Hret & Hpast).
  exists o, st, mf.
  split; [exact Hrun | split; [exact I | split; [exact Hret|]]].
  split.
  - intros j Hj. destruct (Hpast j Hj) as (stj & stj' & Ij & Ej).
    exact (iteration_Next_ok j stj stj' Ij Hne Ej).
  - intros [Hlim Hok].
    destruct (iteration_goes deflate args inputs mf st I Hne Hlim Hok)
      as [st' E]. congruence.
Qed.

(** Without an input the run prints nothing. *)
Lemma run_no_input_rows :
  inputs = [] -> rows_of (run deflate args inputs) = [].
Proof.
  intros Hnil.
  destruct (run_final deflate args inputs) as (o & st & mf & Hrun & I & _).
  rewrite Hrun. cbn [rows_of]. rewrite (inv_output _ _ _ _ I).
  destruct (inv_none _ _ _ _ I Hnil) as [Hm _].
  replace (rows_before mf) with 0%nat; [reflexivity|].
  unfold rows_before. destruct mf as [|[|mf]]; try lia; reflexivity.
Qed.

End Stop.

Lemma rows_before_mono (a b : nat) :
  (a <= b)%nat -> (rows_before a <= rows_before b)%nat.
Proof.
  intros H. unfold rows_before. apply Nat.Div0.div_le_mono. lia.
Qed.

End StopFacts.

(** ** What the outcome of a run tells *)

Module LoopProperties.

Import Text Reader Lockstep LockstepFacts PassFacts LoopFacts RunFacts.
Import TestFacts StopFacts Examples.

Lemma firstn_seq_min (n s m : nat) : firstn n (seq s m) = seq s (Nat.min n m).
Proof.
  revert s m. induction n as [|n IH]; intros s [|m]; cbn; try reflexivity.
  now rewrite IH.
Qed.

Lemma passes_weaker a b rn line :
  (CheckNames b = true -> CheckNames a = true) ->
  passes a rn line = true -> passes b rn line = true.
Proof.
  unfold passes. intros Hab H. apply andb_true_iff in H. destruct H as [H1 H2].
  rewrite H1. cbn [andb].
  destruct (CheckNames b); [|reflexivity].
  rewrite (Hab eq_refl) in H2. exact H2.
Qed.

Lemma line_ok_weaker a b inputs m :
  (CheckNames b = true -> CheckNames a = true) ->
  line_ok a inputs m -> line_ok b inputs m.
Proof.
  intros Hab [Hlen Hhead]. split; [exact Hlen|]. intros P0.
  destruct (Hhead P0) as [Hsig Hrest]. split; [exact Hsig|].
  intros s Hs. apply (passes_weaker a b); auto.
Qed.

(** Two runs on the same inputs whose flags make one go on wherever the
    other does: the first stops no later, and its rows are the first
    rows of the other. *)
Lemma rows_prefix deflate a b inputs :
  (forall j, within_limit a j /\ line_ok a inputs j ->
             within_limit b j /\ line_ok b inputs j) ->
  exists na nb,
    (na <= nb)%nat /\
    rows_of (run deflate a inputs) = map (read_row deflate inputs) (seq 0 na)
    /\
    rows_of (run deflate b inputs) = map (read_row deflate inputs) (seq 0 nb).
Proof.
  intros Hab. destruct inputs as [|s0 others] eqn:Ei.
  - exists 0%nat, 0%nat. rewrite !run_no_input_rows by reflexivity.
    repeat split; auto.
  - rewrite <- Ei in *.
    assert (Hne : inputs <> []) by (rewrite Ei; discriminate).
    destruct (run_stop_index deflate a inputs Hne)
      as (oa & sta & ma & Hra & Ia & _ & Hbefa & Hstopa).
    destruct (run_stop_index deflate b inputs Hne)
      as (ob & stb & mb & Hrb & Ib & _ & Hbefb & Hstopb).
    exists (rows_before ma), (rows_before mb).
    rewrite Hra, Hrb. cbn [rows_of].
    rewrite (inv_output _ _ _ _ Ia), (inv_output _ _ _ _ Ib).
    split; [|split; reflexivity].
    apply rows_before_mono.
    destruct (Nat.le_gt_cases ma mb) as [H|H]; [exact H|].
    exfalso. apply Hstopb. apply Hab. apply Hbefa. exact H.
Qed.

(** X2: Name checking never changes a row: the rows of a run under
    [-check] are the first rows of the run without it. *)
Theorem check_only_stops_earlier deflate a b inputs :
  Limit a = Limit b -> CheckNames a = true -> CheckNames b = false ->
  exists rest,
    rows_of (run deflate b inputs) = rows_of (run deflate a inputs) ++ rest.
Proof.
  intros Hl Ha Hb.
  destruct (rows_prefix deflate a b inputs) as (na & nb & Hle & -> & ->).
  - intros j [Hlim Hok]. split.
    + unfold within_limit in *. rewrite <- Hl. exact Hlim.
    + apply (line_ok_weaker a b); [|exact Hok]. rewrite Hb. discriminate.
  - exists (map (read_row deflate inputs) (seq na (nb - na))).
    rewrite <- map_app. f_equal.
    replace nb with (na + (nb - na))%nat at 1 by lia.
    apply seq_app.
Qed.

Lemma check_only_stops_earlier_witness :
  exists rest,
    rows_of (run Zlib.stored defaults [left_reads; right_reads]) =
    rows_of (run Zlib.stored checking [left_reads; right_reads]) ++ rest.
Proof.
  apply (check_only_stops_earlier Zlib.stored checking defaults);
    reflexivity.
Defined.

(** X1: The limit only cuts the output short: the rows of a run with a
    positive limit [N] are the first [N] rows of the run without a
    limit. *)
Theorem limit_takes_first_rows deflate a b inputs :
  0 < Limit a -> Limit b <= 0 -> CheckNames a = CheckNames b ->
  rows_of (run deflate a inputs) =
  firstn (Z.to_nat (Limit a)) (rows_of (run deflate b inputs)).
Proof.
  intros Hpos Hnone Hchk. destruct inputs as [|s0 others] eqn:Ei.
  - rewrite !run_no_input_rows by reflexivity. now rewrite firstn_nil.
  - rewrite <- Ei in *.
    assert (Hne : inputs <> []) by (rewrite Ei; discriminate).
    destruct (run_stop_index deflate a inputs Hne)
      as (oa & sta & ma & Hra & Ia & _ & Hbefa & Hstopa).
    destruct (run_stop_index deflate b inputs Hne)
      as (ob & stb & mb & Hrb & Ib & _ & Hbefb & Hstopb).
    rewrite Hra, Hrb. cbn [rows_of].
    rewrite (inv_output _ _ _ _ Ia), (inv_output _ _ _ _ Ib).
    rewrite firstn_map, firstn_seq_min. f_equal. f_equal.
    assert (Hwb : forall j, within_limit b j) by (intros j; left; exact Hnone).
    assert (Hab : forall j, line_ok a inputs j <-> line_ok b inputs j).
    { intros j. split; apply line_ok_weaker; rewrite Hchk; auto. }
    assert (Hle : (ma <= mb)%nat).
    { destruct (Nat.le_gt_cases ma mb) as [H|H]; [exact H|].
      exfalso. apply Hstopb. split; [apply Hwb|]. apply Hab, Hbefa, H. }
    pose proof (rows_before_mono ma mb Hle) as Hmono.
    assert (Hcap : Z.of_nat (rows_before ma) <= Limit a).
    { destruct ma as [|ma']; [unfold rows_before; simpl; lia|].
      destruct (Hbefa ma' ltac:(lia)) as [[Hl|Hl] _]; [lia|].
      rewrite rows_before_S. destruct (Nat.eqb (ma' mod 4) 1); lia. }
    destruct (Z.eq_dec (Z.of_nat (rows_before ma)) (Limit a)) as [Heq|Hlt].
    + lia.
    + assert (Hwa : within_limit a ma) by (right; lia).
      assert (Hmb : (mb <= ma)%nat).
      { destruct (Nat.le_gt_cases mb ma) as [H|H]; [exact H|].
        exfalso. apply Hstopa. split; [exact Hwa|]. apply Hab, Hbefb, H. }
      replace mb with ma by lia. lia.
Qed.

Lemma limit_takes_first_rows_witness :
  rows_of (run Zlib.stored limit_two [five_reads]) =
  firstn (Z.to_nat (Limit limit_two))
    (rows_of (run Zlib.stored defaults [five_reads])).
Proof.
  apply (limit_takes_first_rows Zlib.stored limit_two defaults [five_reads]).
  - reflexivity.
  - vm_compute. discriminate.
  - reflexivity.
Defined.

(** *** Why a run stopped *)

(** A pass that leaves the closure: the inputs in front let it through,
    and the next one has no line or a line that stops it. *)
Lemma scan_from_Return_inv args i scs st o :
  scan_from args i scs st = Return o ->
  exists pre sc post st1,
    scs = pre ++ sc :: post /\
    scan_from args i pre st = Next (map (@tl string) pre, st1) /\
    match sc with
    | [] => o = if i + Z.of_nat (List.length pre) =? 0 then Done
                else Failed (Desync (i + Z.of_nat (List.length pre)))
    | line :: _ =>
        on_line args (i + Z.of_nat (List.length pre)) line st1 = Return o
    end.
Proof.
  revert i st. induction scs as [|sc rest IH]; intros i st H.
  - discriminate.
  - cbn [scan_from] in H. destruct sc as [|line sc0]; cbn [Scan] in H.
    + exists [], [], rest, st. cbn [app List.length map scan_from].
      rewrite Z.add_0_r. repeat split.
      destruct (i =? 0); inversion H; reflexivity.
    + destruct (on_line args i line st) as [st0|o0] eqn:E1.
      * destruct (scan_from args (i + 1) rest st0) as [[rest' st2]|o1] eqn:E2;
          [discriminate|].
        inversion H; subst o1. clear H.
        destruct (IH _ _ E2) as (pre & sc & post & st1 & Hscs & Hpre & Hsc).
        exists ((line :: sc0) :: pre), sc, post, st1.
        cbn [List.length]. rewrite Nat2Z.inj_succ, <- Z.add_1_r.
        rewrite <- Z.add_assoc, (Z.add_comm 1) in Hsc.
        split; [rewrite Hscs; reflexivity | split; [|exact Hsc]].
        cbn [scan_from Scan map tl]. rewrite E1, Hpre. reflexivity.
      * inversion H; subst o0. clear H.
        exists [], (line :: sc0), rest, st.
        cbn [app List.length map scan_from]. rewrite Z.add_0_r.
        repeat split. exact E1.
Qed.

(** What a single line can stop the closure with. *)
Lemma on_line_Return_inv args i line st o :
  on_line args i line st = Return o ->
  (Z.rem (line_num st) 4 = 0 /\ HasPrefix line "@" = false /\
   o = Failed (MalformedRecord (line_num st) line)) \/
  (Z.rem (line_num st) 4 = 0 /\ HasPrefix line "@" = true /\ i <> 0 /\
   CheckNames args = true /\ name_of line <> read_name st /\
   o = Failed (NameMismatch (read_name st) (line_num st) (i + 1)
                 (name_of line))) \/
  (Z.rem (line_num st) 4 = 1 /\ zwriter st = None /\ o = NilDeref).
Proof.
  unfold on_line. intros H.
  destruct (Z.eqb_spec (Z.rem (line_num st) 4) 0) as [P0|P0].
  - destruct (HasPrefix line "@") eqn:Hsig; cbn [negb] in H.
    + destruct (Z.eqb_spec i 0) as [Hi|Hi]; [discriminate|].
      destruct (CheckNames args) eqn:Hchk; cbn [andb] in H; [|discriminate].
      destruct (String.eqb_spec (name_of line) (read_name st)) as [He|He];
        cbn [negb] in H; [discriminate|].
      inversion H. right. left. repeat split; auto.
    + inversion H. left. repeat split; auto.
  - destruct (Z.eqb_spec (Z.rem (line_num st) 4) 1) as [P1|P1];
      [|discriminate].
    destruct (zwriter st) as [z|] eqn:Hz.
    + destruct (Zlib.Write z (read_buf st) (bytes_of (line ++ LF))).
      discriminate.
    + inversion H. right. right. repeat split; auto.
Qed.

(** A list that maps onto [pre ++ sc :: post] splits the same way. *)
Lemma map_skipn_split m (ss : list Scanner) pre sc post :
  map (skipn m) ss = pre ++ sc :: post ->
  exists pre' s post',
    ss = pre' ++ s :: post' /\ map (skipn m) pre' = pre /\
    skipn m s = sc /\ List.length pre' = List.length pre.
Proof.
  intros H. apply map_eq_app in H. destruct H as (pre' & tl' & -> & Hp & Ht).
  apply map_eq_cons in Ht. destruct Ht as (s & post' & -> & Hs & _).
  exists pre', s, post'. repeat split; auto.
  rewrite <- Hp. now rewrite length_map.
Qed.

Lemma skipn_nil_length (s : Scanner) m :
  skipn m s = [] -> (List.length s <= m)%nat.
Proof.
  intros H. destruct (Nat.le_gt_cases (List.length s) m) as [Hle|Hgt];
    [exact Hle|].
  apply skipn_nonempty in Hgt. contradiction.
Qed.

Lemma skipn_cons_nth (s : Scanner) m line rest :
  skipn m s = line :: rest ->
  (m < List.length s)%nat /\ nth_error s m = Some line /\ line_at s m = line.
Proof.
  intros H.
  assert (Hlt : (m < List.length s)%nat).
  { apply skipn_nonempty. rewrite H. discriminate. }
  assert (Hl : line_at s m = line).
  { rewrite <- hd_skipn, H. reflexivity. }
  split; [exact Hlt | split; [|exact Hl]].
  unfold line_at in Hl. rewrite <- Hl. apply nth_error_nth'. exact Hlt.
Qed.

Section Causes.

Variable deflate : list byte -> list byte.
Variable args : Args.
Variable inputs : list Scanner.

(** The last iteration of a run on at least one input: either the limit
    stopped it, or the pass over the inputs did. *)
Lemma run_cause :
  inputs <> [] ->
  exists o st mf,
    run deflate args inputs = Some (o, st) /\
    Inv deflate inputs mf st /\
    (forall j, (j < mf)%nat ->
       within_limit args j /\ line_ok args inputs j) /\
    ((o = Done /\ 0 < Limit args /\ Limit args <= Z.of_nat (rows_before mf))
     \/
     exists pre s post st1,
       inputs = pre ++ s :: post /\
       (pre <> [] -> line_ok args pre mf) /\
       (pre <> [] -> (mf mod 4 = 0)%nat ->
        read_name st1 = name_of (line_at (hd [] inputs) mf)) /\
       line_num st1 = Z.of_nat mf /\
       match skipn mf s with
       | [] => o = if Z.of_nat (List.length pre) =? 0 then Done
                   else Failed (Desync (Z.of_nat (List.length pre)))
       | line :: _ =>
           (Z.rem (Z.of_nat mf) 4 = 0 /\ HasPrefix line "@" = false /\
            o = Failed (MalformedRecord (Z.of_nat mf) line)) \/
           (Z.rem (Z.of_nat mf) 4 = 0 /\ HasPrefix line "@" = true /\
            pre <> [] /\ CheckNames args = true /\
            name_of line <> read_name st1 /\
            o = Failed (NameMismatch (read_name st1) (Z.of_nat mf)
                          (Z.of_nat (List.length pre) + 1) (name_of line)))
       end).
Proof.
  intros Hne.
  destruct (run_stop_index deflate args inputs Hne)
    as (o & st & mf & Hrun & I & Hret & Hbef & _).
  exists o, st, mf.
  split; [exact Hrun | split; [exact I | split; [exact Hbef|]]].
  rewrite iteration_unfold in Hret.
  destruct ((0 <? Limit args) && (Limit args <=? read_count st)) eqn:Hlim.
  - left. inversion Hret. apply andb_true_iff in Hlim.
    destruct Hlim as [H1 H2]. apply Z.ltb_lt in H1. apply Z.leb_le in H2.
    rewrite (inv_read_count _ _ _ _ I) in H2. auto.
  - right.
    assert (Hph : Z.rem (line_num (reset_full_len st)) 4 = Z.of_nat (mf mod 4)).
    { cbn [reset_full_len line_num].
      rewrite (inv_line_num _ _ _ _ I). apply rem4_of_nat. }
    rewrite (inv_scanners _ _ _ _ I) in Hret.
    destruct (scan_from args 0 (map (skipn mf) inputs) (reset_full_len st))
      as [[scs st1]|o'] eqn:E.
    + (* the pass went through: the block after it stopped the run *)
      exfalso.
      pose proof (scan_from_shape _ _ _ _ _ _ E) as (_ & _ & Hl & _).
      unfold finish_line in Hret. cbn [line_num zwriter] in Hret.
      rewrite Hl, Hph in Hret.
      destruct (Nat.eq_dec (mf mod 4) 1) as [P1|P1].
      * rewrite P1 in Hret. cbn in Hret.
        destruct (inv_fresh _ _ _ _ I Hne P1) as (Hz & _).
        eapply scan_from_seq in E;
          [| rewrite Hph, P1; reflexivity | exact Hz | reflexivity].
        destruct E as (_ & _ & z' & Hz' & _). rewrite Hz' in Hret.
        discriminate.
      * replace (Z.of_nat (mf mod 4) =? 1) with false in Hret
          by (symmetry; apply Z.eqb_neq; lia).
        discriminate.
    + inversion Hret; subst o'. clear Hret.
      apply scan_from_Return_inv in E.
      destruct E as (pre & sc & post & st1 & Hscs & Hpre & Hsc).
      apply map_skipn_split in Hscs.
      destruct Hscs as (pre' & s & post' & Hin & Hp & Hs & Hlen).
      subst pre. rewrite length_map in Hsc. cbn [Z.add] in Hsc.
      exists pre', s, post', st1.
      assert (Hl1 : line_num st1 = Z.of_nat mf).
      { pose proof (scan_from_shape _ _ _ _ _ _ Hpre) as (_ & _ & Hl & _).
        rewrite Hl. cbn [reset_full_len line_num].
        apply (inv_line_num _ _ _ _ I). }
      assert (Hhd : pre' <> [] -> hd [] inputs = hd [] pre').
      { intros Hp'. rewrite Hin. destruct pre'; [contradiction | reflexivity]. }
      split; [exact Hin | split; [|split; [|split; [exact Hl1|]]]].
      * intros Hp'.
        eapply scan_Next_line_ok; [exact Hph | exact Hp' | exact Hpre].
      * intros Hp' P0. rewrite (Hhd Hp').
        eapply scan_Next_line_ok;
          [exact Hph | exact Hp' | exact Hpre | exact P0].
      * rewrite Hs. destruct sc as [|line sc0]; [exact Hsc|].
        apply on_line_Return_inv in Hsc. rewrite Hl1 in Hsc.
        destruct Hsc as [(P0 & Hsig & Ho) | [(P0 & Hsig & Hi & Hc & Hd & Ho)
                                            | (P1 & Hz & Ho)]].
        -- left. auto.
        -- right. repeat split; auto.
           intros Hp'. apply Hi. rewrite Hp'. reflexivity.
        -- exfalso.
           assert (P1' : (mf mod 4 = 1)%nat).
           { rewrite rem4_of_nat in P1. lia. }
           destruct (inv_fresh _ _ _ _ I Hne P1') as (Hz0 & _).
           eapply scan_from_seq in Hpre;
             [| rewrite Hph, P1'; reflexivity | exact Hz0 | reflexivity].
           destruct Hpre as (_ & _ & z' & Hz' & _). congruence.
Qed.

(** Without an input the second iteration dereferences the nil writer. *)
Lemma run_no_input_outcome :
  inputs = [] -> outcome_of (run deflate args inputs) = Some NilDeref.
Proof.
  intros ->. unfold run, enough. cbn [hd List.length loop].
  assert (Hlim : forall st, read_count st = 0 ->
            (0 <? Limit args) && (Limit args <=? read_count st) = false).
  { intros st ->. destruct (Z.ltb_spec 0 (Limit args)); [|reflexivity].
    simpl. apply Z.leb_gt. assumption. }
  rewrite iteration_unfold, Hlim by reflexivity.
  cbn [initial inputScanners scan_from reset_full_len line_num
       read_count read_name read_buf zwriter full_len output].
  unfold finish_line at 1.
  cbn [inputScanners line_num read_count read_name read_buf zwriter
       full_len output].
  change (Z.rem 0 4 =? 1) with false. cbv iota.
  rewrite iteration_unfold, Hlim by reflexivity.
  cbn [inputScanners scan_from reset_full_len line_num
       read_count read_name read_buf zwriter full_len output].
  unfold finish_line.
  cbn [inputScanners line_num read_count read_name read_buf zwriter
       full_len output].
  change (Z.rem (0 + 1) 4 =? 1) with true. cbv iota. reflexivity.
Qed.

End Causes.

Lemma line_ok_sigil args ss m s :
  line_ok args ss m -> In s ss ->
  (m < List.length s)%nat /\
  ((m mod 4 = 0)%nat -> HasPrefix (line_at s m) "@" = true).
Proof.
  intros [Hlen Hhead] Hs. split; [apply Hlen; exact Hs|]. intros P0.
  destruct (Hhead P0) as [Hsig Hrest].
  destruct ss as [|s0 others]; [contradiction|]. cbn [hd tl] in *.
  destruct Hs as [<-|Hs]; [exact Hsig|].
  specialize (Hrest s Hs). unfold passes in Hrest.
  apply andb_true_iff in Hrest. apply Hrest.
Qed.

Lemma nth_error_front {A : Type} (pre : list A) (x : A) post i y :
  (i < List.length pre)%nat ->
  nth_error (pre ++ x :: post) i = Some y -> In y pre.
Proof.
  intros Hi H. rewrite nth_error_app1 in H by exact Hi.
  eapply nth_error_In. exact H.
Qed.

Lemma nth_error_middle {A : Type} (pre : list A) (x : A) post :
  nth_error (pre ++ x :: post) (List.length pre) = Some x.
Proof.
  rewrite nth_error_app2 by lia. now rewrite Nat.sub_diag.
Qed.

Lemma rows_at_header (m : nat) :
  (m mod 4 = 0)%nat -> rows_before m = (m / 4)%nat.
Proof.
  intros P0. unfold rows_before.
  pose proof (Nat.div_mod_eq m 4). pose proof (Nat.div_mod_eq (m + 2) 4).
  pose proof (Nat.mod_upper_bound (m + 2) 4). lia.
Qed.

(** X3: The nil writer is dereferenced exactly when there is no input: with at
    least one input the writer exists whenever it is used. *)
Theorem nil_deref_iff_no_input deflate args inputs :
  outcome_of (run deflate args inputs) = Some NilDeref <-> inputs = [].
Proof.
  split; [|apply run_no_input_outcome].
  intros H. destruct inputs as [|s0 others] eqn:Ei; [reflexivity|].
  exfalso. rewrite <- Ei in *.
  assert (Hne : inputs <> []) by (rewrite Ei; discriminate).
  destruct (run_cause deflate args inputs Hne)
    as (o & st & mf & Hrun & _ & _ & Hcause).
  rewrite Hrun in H. cbn in H. inversion H; subst o. clear H.
  destruct Hcause as [(Ho & _) | (pre & s & post & st1 & _ & _ & _ & _ & Hc)];
    [discriminate|].
  destruct (skipn mf s) as [|line rest].
  - destruct (Z.of_nat (List.length pre) =? 0); discriminate.
  - destruct Hc as [(_ & _ & Ho) | (_ & _ & _ & _ & _ & Ho)]; discriminate.
Qed.

(** X4: A run that ends normally was stopped by the limit, having printed
    exactly that many rows, or ran out of lines on the first input, all of
    whose lines it has counted.  The rows printed number a quarter of the
    lines counted plus two, rounded down. *)
Theorem done_means deflate args inputs st :
  run deflate args inputs = Some (Done, st) ->
  List.length (output st) = ((Z.to_nat (line_num st) + 2) / 4)%nat /\
  ((0 < Limit args /\ Z.of_nat (List.length (output st)) = Limit args) \/
   exists s0 others,
     inputs = s0 :: others /\ Z.of_nat (List.length s0) = line_num st).
Proof.
  intros Hrun.
  assert (Hne : inputs <> []).
  { intros Hnil.
    pose proof (run_no_input_outcome deflate args inputs Hnil) as H.
    rewrite Hrun in H. discriminate. }
  destruct (run_cause deflate args inputs Hne)
    as (o & st' & mf & Hrun' & I & Hbef & Hcause).
  rewrite Hrun in Hrun'. inversion Hrun'; subst o st'. clear Hrun'.
  rewrite (length_rows _ _ _ _ I), (inv_line_num _ _ _ _ I), Nat2Z.id.
  split; [reflexivity|].
  destruct Hcause as [(_ & Hpos & Hle)
                     | (pre & s & post & st1 & Hin & _ & _ & _ & Hc)].
  - left. split; [exact Hpos|].
    destruct mf as [|mf']; [unfold rows_before in Hle; simpl in Hle; lia|].
    destruct (Hbef mf' ltac:(lia)) as [[Hl|Hl] _]; [lia|].
    rewrite rows_before_S in *. destruct (Nat.eqb (mf' mod 4) 1); lia.
  - right. destruct (skipn mf s) as [|line rest] eqn:Es.
    + destruct pre as [|p0 pre'].
      * exists s, post. split; [exact Hin|].
        apply skipn_nil_length in Es.
        pose proof (inv_bound _ _ _ _ I s) as Hb. rewrite Hin in Hb.
        specialize (Hb (or_introl eq_refl)). lia.
      * cbn [List.length] in Hc.
        destruct (Z.of_nat (S (List.length pre')) =? 0) eqn:E0;
          [apply Z.eqb_eq in E0; lia | discriminate].
    + destruct Hc as [(_ & _ & Ho) | (_ & _ & _ & _ & _ & Ho)]; discriminate.
Qed.

Lemma done_means_witness :
  exists st,
    run Zlib.stored limit_two [five_reads] = Some (Done, st) /\
    List.length (output st) = ((Z.to_nat (line_num st) + 2) / 4)%nat /\
    line_num st = 6.
Proof.
  eexists. split; [vm_compute; reflexivity | split; [|reflexivity]].
  apply (done_means Zlib.stored limit_two [five_reads]).
  vm_compute. reflexivity.
Defined.

(** X5: A MalformedRecord error is never spurious: the line it quotes is the
    line with the number it names, counted from 0, of one of the inputs;
    that number is a header offset, the line does not start with the
    sigil, the inputs in front of that one have a line with the sigil
    there, and the rows printed are those of the reads before. *)
Theorem malformed_means deflate args inputs n line st :
  run deflate args inputs = Some (Failed (MalformedRecord n line), st) ->
  exists m i s,
    n = Z.of_nat m /\ line_num st = n /\ (m mod 4 = 0)%nat /\
    nth_error inputs i = Some s /\ nth_error s m = Some line /\
    HasPrefix line "@" = false /\
    (forall i' s', (i' < i)%nat -> nth_error inputs i' = Some s' ->
       (m < List.length s')%nat /\ HasPrefix (line_at s' m) "@" = true) /\
    List.length (output st) = (m / 4)%nat.
Proof.
  intros Hrun.
  assert (Hne : inputs <> []).
  { intros Hnil.
    pose proof (run_no_input_outcome deflate args inputs Hnil) as H.
    rewrite Hrun in H. discriminate. }
  destruct (run_cause deflate args inputs Hne)
    as (o & st' & mf & Hrun' & I & _ & Hcause).
  rewrite Hrun in Hrun'. inversion Hrun'; subst o st'. clear Hrun'.
  destruct Hcause as [(Ho & _)
                     | (pre & s & post & st1 & Hin & Hok & _ & _ & Hc)];
    [discriminate|].
  destruct (skipn mf s) as [|line' rest] eqn:Es.
  { destruct (Z.of_nat (List.length pre) =? 0); discriminate. }
  destruct Hc as [(P0 & Hsig & Ho) | (_ & _ & _ & _ & _ & Ho)];
    [|discriminate].
  inversion Ho; subst n line'. clear Ho.
  rewrite rem4_of_nat in P0.
  assert (P0' : (mf mod 4 = 0)%nat) by lia.
  apply skipn_cons_nth in Es. destruct Es as (Hlt & Hnth & _).
  exists mf, (List.length pre), s.
  split; [reflexivity | split; [apply (inv_line_num _ _ _ _ I)|]].
  split; [exact P0' | split; [rewrite Hin; apply nth_error_middle|]].
  split; [exact Hnth | split; [exact Hsig | split]].
  - intros i' s' Hi' Hs'. rewrite Hin in Hs'.
    apply nth_error_front in Hs'; [|exact Hi'].
    assert (Hp : pre <> []) by (intros ->; contradiction).
    destruct (line_ok_sigil args pre mf s' (Hok Hp) Hs') as [H1 H2]. auto.
  - rewrite (length_rows _ _ _ _ I). apply rows_at_header. exact P0'.
Qed.

Lemma malformed_means_witness :
  exists m i s st,
    run Zlib.stored defaults [headed; bare] =
      Some (Failed (MalformedRecord 0 "ACGT"), st) /\
    0 = Z.of_nat m /\ nth_error [headed; bare] i = Some s /\
    nth_error s m = Some "ACGT".
Proof.
  assert (H : exists st, run Zlib.stored defaults [headed; bare] =
                Some (Failed (MalformedRecord 0 "ACGT"), st)).
  { eexists. vm_compute. reflexivity. }
  destruct H as [st H].
  destruct (malformed_means Zlib.stored defaults [headed; bare] 0 "ACGT" st H)
    as (m & i & s & Hn & _ & _ & Hi & Hs & _).
  exists m, i, s, st. auto.
Defined.

Lemma hd_front {A : Type} (d : A) (pre : list A) (x : A) post :
  pre <> [] -> hd d (pre ++ x :: post) = hd d pre.
Proof. destruct pre; [congruence | reflexivity]. Qed.

Lemma run_has_input deflate args inputs e st :
  run deflate args inputs = Some (Failed e, st) -> inputs <> [].
Proof.
  intros Hrun Hnil.
  pose proof (run_no_input_outcome deflate args inputs Hnil) as H.
  rewrite Hrun in H. discriminate.
Qed.

(** X6: A Desync error names, counted from 0, an input other than the first
    that has exactly as many lines as were counted, while every input in
    front of it has more: the first of the shortest inputs, and never
    input 0. *)
Theorem desync_means deflate args inputs i st :
  run deflate args inputs = Some (Failed (Desync i), st) ->
  exists idx s,
    i = Z.of_nat idx /\ (0 < idx)%nat /\
    nth_error inputs idx = Some s /\
    Z.of_nat (List.length s) = line_num st /\
    forall i' s', (i' < idx)%nat -> nth_error inputs i' = Some s' ->
      (List.length s < List.length s')%nat.
Proof.
  intros Hrun. pose proof (run_has_input _ _ _ _ _ Hrun) as Hne.
  destruct (run_cause deflate args inputs Hne)
    as (o & st' & mf & Hrun' & I & _ & Hcause).
  rewrite Hrun in Hrun'. inversion Hrun'; subst o st'. clear Hrun'.
  destruct Hcause as [(Ho & _)
                     | (pre & s & post & st1 & Hin & Hok & _ & _ & Hc)];
    [discriminate|].
  destruct (skipn mf s) as [|line' rest] eqn:Es.
  2:{ destruct Hc as [(_ & _ & Ho) | (_ & _ & _ & _ & _ & Ho)]; discriminate. }
  destruct (Z.of_nat (List.length pre) =? 0) eqn:E0; [discriminate|].
  apply Z.eqb_neq in E0. inversion Hc; subst i. clear Hc.
  apply skipn_nil_length in Es.
  assert (Hs : In s inputs) by (rewrite Hin; apply in_elt).
  pose proof (inv_bound _ _ _ _ I s Hs) as Hb.
  exists (List.length pre), s.
  split; [reflexivity | split; [lia|]].
  split; [rewrite Hin; apply nth_error_middle|].
  split; [rewrite (inv_line_num _ _ _ _ I); lia|].
  intros i' s' Hi' Hs'. rewrite Hin in Hs'.
  apply nth_error_front in Hs'; [|exact Hi'].
  assert (Hp : pre <> []) by (intros ->; simpl in E0; lia).
  destruct (line_ok_sigil args pre mf s' (Hok Hp) Hs') as [H1 _]. lia.
Qed.

Lemma desync_means_witness :
  exists idx s st,
    run Zlib.stored defaults [pair_first; cut_after_sequence] =
      Some (Failed (Desync 1), st) /\
    1 = Z.of_nat idx /\
    nth_error [pair_first; cut_after_sequence] idx = Some s /\
    Z.of_nat (List.length s) = line_num st.
Proof.
  assert (H : exists st,
             run Zlib.stored defaults [pair_first; cut_after_sequence] =
               Some (Failed (Desync 1), st)).
  { eexists. vm_compute. reflexivity. }
  destruct H as [st H].
  destruct (desync_means Zlib.stored defaults
              [pair_first; cut_after_sequence] 1 st H)
    as (idx & s & Hi & _ & Hn & Hl & _).
  exists idx, s, st. auto.
Defined.

(** X7: A NameMismatch error, for any number of inputs, is raised only under
    [-check] and reports what is in the inputs: its line number is a header
    offset that all inputs up to the one it names have, its input number is
    the position of that input counted from 1 and is at least 2, the name
    found is the one on that input's header, the name expected is the one
    on the header of input 0, the two differ, the inputs in between carry
    the expected name, and the rows printed are those of the reads
    before. *)
Theorem mismatch_means deflate args inputs rn n j nm st :
  run deflate args inputs = Some (Failed (NameMismatch rn n j nm), st) ->
  CheckNames args = true /\
  exists m idx s,
    n = Z.of_nat m /\ line_num st = n /\ (m mod 4 = 0)%nat /\
    j = Z.of_nat idx + 1 /\ (0 < idx)%nat /\
    nth_error inputs idx = Some s /\ (m < List.length s)%nat /\
    nm = name_of (line_at s m) /\
    rn = name_of (line_at (hd [] inputs) m) /\ nm <> rn /\
    (forall i' s', (i' < idx)%nat -> nth_error inputs i' = Some s' ->
       (m < List.length s')%nat /\ name_of (line_at s' m) = rn) /\
    List.length (output st) = (m / 4)%nat.
Proof.
  intros Hrun. pose proof (run_has_input _ _ _ _ _ Hrun) as Hne.
  destruct (run_cause deflate args inputs Hne)
    as (o & st' & mf & Hrun' & I & _ & Hcause).
  rewrite Hrun in Hrun'. inversion Hrun'; subst o st'. clear Hrun'.
  destruct Hcause as [(Ho & _)
                     | (pre & s & post & st1 & Hin & Hok & Hname & _ & Hc)];
    [discriminate|].
  destruct (skipn mf s) as [|line' rest] eqn:Es.
  { destruct (Z.of_nat (List.length pre) =? 0); discriminate. }
  destruct Hc as [(_ & _ & Ho) | (P0 & Hsig & Hp & Hchk & Hdiff & Ho)];
    [discriminate|].
  inversion Ho; subst rn n j nm. clear Ho.
  rewrite rem4_of_nat in P0.
  assert (P0' : (mf mod 4 = 0)%nat) by lia.
  apply skipn_cons_nth in Es. destruct Es as (Hlt & Hnth & Hline).
  specialize (Hname Hp P0'). specialize (Hok Hp).
  split; [exact Hchk|].
  exists mf, (List.length pre), s.
  split; [reflexivity | split; [apply (inv_line_num _ _ _ _ I)|]].
  split; [exact P0'|]. split; [reflexivity|].
  split; [destruct pre; [congruence | cbn [List.length]; lia]|].
  split; [rewrite Hin; apply nth_error_middle|].
  split; [exact Hlt|].
  split; [rewrite Hline; reflexivity|].
  split; [exact Hname|].
  split; [exact Hdiff|].
  split.
  - intros i' s' Hi' Hs'. rewrite Hin in Hs'.
    apply nth_error_front in Hs'; [|exact Hi'].
    destruct Hok as [Hlen Hhead]. split; [apply Hlen; exact Hs'|].
    destruct (Hhead P0') as [_ Hrest].
    rewrite Hname, Hin, (hd_front _ _ _ _ Hp).
    destruct pre as [|p0 pre']; [contradiction|]. cbn [hd tl] in *.
    destruct Hs' as [<-|Hs']; [reflexivity|].
    specialize (Hrest s' Hs'). unfold passes in Hrest.
    apply andb_true_iff in Hrest. destruct Hrest as [_ Hrest].
    rewrite Hchk in Hrest. cbn [negb orb] in Hrest.
    apply String.eqb_eq. exact Hrest.
  - rewrite (length_rows _ _ _ _ I). apply rows_at_header. exact P0'.
Qed.

Lemma mismatch_means_witness :
  exists m idx s st,
    run Zlib.stored checking [left_reads; right_reads] =
      Some (Failed (NameMismatch "b" 4 2 "c"), st) /\
    4 = Z.of_nat m /\ 2 = Z.of_nat idx + 1 /\
    nth_error [left_reads; right_reads] idx = Some s /\
    "c" = name_of (line_at s m).
Proof.
  assert (H : exists st,
             run Zlib.stored checking [left_reads; right_reads] =
               Some (Failed (NameMismatch "b" 4 2 "c"), st)).
  { eexists. vm_compute. reflexivity. }
  destruct H as [st H].
  destruct (mismatch_means Zlib.stored checking [left_reads; right_reads]
              "b" 4 2 "c" st H)
    as (_ & m & idx & s & Hn & _ & _ & Hj & _ & Hi & _ & Hnm & _).
  exists m, idx, s, st. auto.
Defined.

End LoopProperties.

(** ** Runs compared, and what [main] does around the loop *)

Module RunProperties.

Import Text Reader Lockstep LockstepFacts PassFacts LoopFacts RunFacts.
Import TestFacts StopFacts LoopProperties Examples Relations.

Lemma alike_cons m l sc l' sc' :
  alike m (l :: sc) (l' :: sc') ->
  alike (S m) sc sc' /\ ((m mod 4 < 2)%nat -> l = l').
Proof.
  intros [Hlen H]. cbn [List.length] in *. split; [split; [lia|]|].
  - intros j Hj Hm. apply (H (S j)); [lia|].
    replace (m + S j)%nat with (S m + j)%nat by lia. exact Hm.
  - intros Hm. apply (H 0%nat); [lia|]. now rewrite Nat.add_0_r.
Qed.

Lemma on_line_sim args m i l l' st st' :
  vars st = vars st' -> line_num st = Z.of_nat m ->
  ((m mod 4 < 2)%nat -> l = l') ->
  agree (fun a b => vars a = vars b /\ line_num a = Z.of_nat m)
        (on_line args i l st) (on_line args i l' st').
Proof.
  intros Hv Hm Hl. destruct st, st'. unfold vars in Hv. cbn in Hv, Hm.
  inversion Hv; subst. clear Hv.
  unfold on_line, vars. cbn [line_num read_count read_name read_buf zwriter
                             full_len output inputScanners].
  rewrite rem4_of_nat.
  pose proof (Nat.mod_upper_bound m 4 ltac:(lia)) as Hb.
  destruct (Z.eqb_spec (Z.of_nat (m mod 4)) 0) as [E0|E0].
  - rewrite <- (Hl ltac:(lia)).
    destruct (HasPrefix l "@"); cbn [negb agree]; [|reflexivity].
    destruct (i =? 0); cbn [agree line_num read_count read_name read_buf
                            zwriter full_len output]; [auto|].
    destruct (CheckNames args && negb (name_of l =? read_name1)%string);
      cbn [agree line_num read_count read_name read_buf
           zwriter full_len output]; auto.
  - destruct (Z.eqb_spec (Z.of_nat (m mod 4)) 1) as [E1|E1].
    + rewrite <- (Hl ltac:(lia)).
      destruct zwriter1 as [z|]; cbn [agree]; [|reflexivity].
      destruct (Zlib.Write z read_buf1 (bytes_of (l ++ LF))) as [z' buf].
      cbn [agree line_num read_count read_name read_buf
           zwriter full_len output]. auto.
    + cbn [agree line_num read_count read_name read_buf
           zwriter full_len output]. auto.
Qed.

Lemma scan_from_sim args m scs scs' :
  Forall2 (alike m) scs scs' ->
  forall i st st',
  vars st = vars st' -> line_num st = Z.of_nat m ->
  agree (fun a b => Forall2 (alike (S m)) (fst a) (fst b) /\
                    vars (snd a) = vars (snd b) /\
                    line_num (snd a) = Z.of_nat m)
        (scan_from args i scs st) (scan_from args i scs' st').
Proof.
  induction 1 as [|sc sc' rest rest' Hsc Hrest IH]; intros i st st' Hv Hm.
  - cbn. auto.
  - cbn [scan_from].
    destruct sc as [|l sc], sc' as [|l' sc'];
      try (destruct Hsc as [Hlen _]; cbn in Hlen; lia).
    + cbn [Scan]. destruct (i =? 0); reflexivity.
    + cbn [Scan]. apply alike_cons in Hsc. destruct Hsc as [Hsc Hl].
      pose proof (on_line_sim args m i l l' st st' Hv Hm Hl) as Ho.
      destruct (on_line args i l st) as [a|o],
               (on_line args i l' st') as [b|o'];
        cbn [agree] in Ho; try contradiction; [|exact Ho].
      destruct Ho as [Hv' Hm'].
      specialize (IH (i + 1) a b Hv' Hm').
      destruct (scan_from args (i + 1) rest a) as [[r a1]|o],
               (scan_from args (i + 1) rest' b) as [[r' b1]|o'];
        cbn [agree fst snd] in IH |- *; try contradiction; [|exact IH].
      destruct IH as (Hr & Hv1 & Hm1). auto.
Qed.

Lemma iteration_sim deflate args m st st' :
  related m st st' ->
  agree (related (S m)) (iteration deflate args st)
        (iteration deflate args st').
Proof.
  intros (Hs & Hv & Hm). rewrite !iteration_unfold.
  assert (Hrc : read_count st = read_count st')
    by (unfold vars in Hv; congruence).
  rewrite <- Hrc.
  destruct ((0 <? Limit args) && (Limit args <=? read_count st));
    [reflexivity|].
  assert (Hv0 : vars (reset_full_len st) = vars (reset_full_len st')).
  { unfold vars in *. cbn. congruence. }
  pose proof (scan_from_sim args m _ _ Hs 0 _ _ Hv0 Hm) as H.
  destruct (scan_from args 0 (inputScanners st) (reset_full_len st))
    as [[r a]|o],
    (scan_from args 0 (inputScanners st') (reset_full_len st'))
    as [[r' b]|o'];
    cbn [agree fst snd] in H |- *; try contradiction; [|exact H].
  destruct H as (Hr & Hva & Hma).
  unfold vars in Hva. inversion Hva as [[H1 H2 H3 H4 H5 H6 H7]].
  unfold finish_line.
  cbn [line_num read_count read_name read_buf zwriter full_len output
       inputScanners].
  destruct (Z.rem (line_num a) 4 =? 1).
  - destruct (zwriter a) as [z|]; cbn [agree]; [|reflexivity].
    destruct (Zlib.Close deflate z (read_buf a)) as [z' buf].
    cbn [agree]. unfold related, vars. cbn. split; [exact Hr|].
    split; [reflexivity | lia].
  - cbn [agree]. unfold related, vars. cbn. split; [exact Hr|].
    split; [reflexivity | lia].
Qed.

Lemma loop_sim deflate args fuel :
  forall m st st', related m st st' ->
  match loop deflate args fuel st, loop deflate args fuel st' with
  | Some (o, a), Some (o', b) => o = o' /\ output a = output b
  | None, None => True
  | _, _ => False
  end.
Proof.
  induction fuel as [|fuel IH]; intros m st st' R; cbn [loop]; [exact I|].
  pose proof (iteration_sim deflate args m st st' R) as H.
  destruct (iteration deflate args st) as [a|o],
           (iteration deflate args st') as [b|o'];
    cbn [agree] in H; try contradiction.
  - apply (IH (S m)). exact H.
  - split; [exact H|]. destruct R as (_ & Hv & _).
    unfold vars in Hv. congruence.
Qed.

Lemma same_reads_alike s s' : same_reads s s' = true -> alike 0 s s'.
Proof.
  unfold same_reads. intros H. apply andb_true_iff in H.
  destruct H as [Hlen H]. apply Nat.eqb_eq in Hlen.
  rewrite forallb_forall in H. split; [exact Hlen|].
  intros j Hj Hm. cbn [Nat.add] in Hm. specialize (H j).
  rewrite in_seq in H. specialize (H ltac:(lia)).
  apply Nat.ltb_lt in Hm. rewrite Hm in H.
  apply String.eqb_eq in H. exact H.
Qed.

Lemma same_inputs_alike a : forall b,
  same_inputs a b = true -> Forall2 (alike 0) a b.
Proof.
  induction a as [|s a IH]; intros [|s' b] H; cbn in H;
    try discriminate; [constructor|].
  apply andb_true_iff in H. destruct H as [H1 H2].
  constructor; [apply same_reads_alike; exact H1 | apply IH; exact H2].
Qed.

(** X8: The separator and quality lines are read and never looked at: two
    runs on inputs that differ in those lines only end the same way and
    print the same rows. *)
Theorem unread_lines_ignored deflate args inputs inputs' :
  same_inputs inputs inputs' = true ->
  outcome_of (run deflate args inputs) = outcome_of (run deflate args inputs')
  /\
  rows_of (run deflate args inputs) = rows_of (run deflate args inputs').
Proof.
  intros H. apply same_inputs_alike in H.
  assert (Hfuel : enough inputs = enough inputs').
  { unfold enough. destruct H as [|s s' a b [Hlen _] _]; cbn [hd]; congruence. }
  assert (R : related 0 (initial inputs) (initial inputs')).
  { split; [exact H | split; reflexivity]. }
  pose proof (loop_sim deflate args (enough inputs) 0 _ _ R) as L.
  unfold run. rewrite <- Hfuel.
  destruct (loop deflate args (enough inputs) (initial inputs)) as [[o a]|],
           (loop deflate args (enough inputs) (initial inputs')) as [[o' b]|];
    try contradiction; cbn [outcome_of rows_of option_map fst].
  - destruct L as [-> ->]. split; reflexivity.
  - split; reflexivity.
Qed.

Lemma unread_lines_ignored_witness :
  rows_of (run Zlib.stored defaults
             [["@r1 x"; "ACGT"; "+"; "IIII"; "@r2"; "GG"; "+r2"; "##"]]) =
  rows_of (run Zlib.stored defaults
             [["@r1 x"; "ACGT"; "-"; ""; "@r2"; "GG"; "@"; "!!!!!!"]]).
Proof.
  apply (unread_lines_ignored Zlib.stored defaults
           [["@r1 x"; "ACGT"; "+"; "IIII"; "@r2"; "GG"; "+r2"; "##"]]
           [["@r1 x"; "ACGT"; "-"; ""; "@r2"; "GG"; "@"; "!!!!!!"]]).
  reflexivity.
Defined.

(** X9: At the top of every iteration the loop goes through, each scanner has
    delivered exactly [line_num] lines of its input, [read_count] is the
    number of rows printed, and that number is a quarter of [line_num]
    plus two, rounded down. *)
Theorem lockstep_invariant deflate args inputs :
  Forall
    (fun st =>
       0 <= line_num st /\
       inputScanners st = map (skipn (Z.to_nat (line_num st))) inputs /\
       read_count st = Z.of_nat (List.length (output st)) /\
       List.length (output st) = ((Z.to_nat (line_num st) + 2) / 4)%nat)
    (visited deflate args (enough inputs) (initial inputs)).
Proof.
  apply Forall_forall. intros st Hin.
  apply In_nth_error in Hin. destruct Hin as [j Hj].
  pose proof (visited_inv deflate args inputs _ 0 _ j st
                (Inv_initial deflate inputs) Hj) as I.
  cbn [Nat.add] in I.
  rewrite (length_rows _ _ _ _ I), (inv_line_num _ _ _ _ I), Nat2Z.id.
  split; [lia|]. split; [apply (inv_scanners _ _ _ _ I)|].
  split; [apply (inv_read_count _ _ _ _ I) | reflexivity].
Qed.

Lemma Split_hd_spec (s : string) :
  exists rest,
    s = (hd "" (Split s " ") ++ rest)%string /\
    (rest = "" \/ exists r, rest = String " " r) /\
    spaceless (hd "" (Split s " ")).
Proof.
  unfold spaceless. induction s as [|c s IH].
  - exists "". cbn. auto.
  - cbn [Split]. destruct (Ascii.eqb_spec c " ") as [->|Hc].
    + exists (String " " s). cbn. split; [reflexivity|]. split; [|auto].
      right. exists s. reflexivity.
    + destruct IH as (rest & Hs & Hrest & Hno).
      exists rest. destruct (Split s " ") as [|piece pieces]; cbn [hd] in *.
      * cbn in Hs. split; [cbn; congruence|]. split; [exact Hrest|].
        cbn. intros [H|[]]. congruence.
      * split; [cbn; congruence|]. split; [exact Hrest|].
        cbn. intros [H|H]; [congruence | exact (Hno H)].
Qed.

Lemma name_of_spaceless (line : string) : spaceless (name_of line).
Proof.
  unfold name_of. destruct (Split_hd_spec (from1 line)) as (_ & _ & _ & H).
  exact H.
Qed.

(** X10: The name taken from a header line is what follows its first byte up
    to the first space: it has no space in it, and what the line has after
    it is nothing or starts with a space. *)
Theorem name_of_token (line : string) :
  exists rest,
    from1 line = (name_of line ++ rest)%string /\
    (rest = "" \/ exists r, rest = String " " r) /\
    spaceless (name_of line).
Proof. unfold name_of. apply Split_hd_spec. Qed.

(** X11: No row is printed with a space in its name, whatever the inputs. *)
Theorem row_names_spaceless deflate args inputs :
  Forall (fun r => spaceless (row_name r))
         (rows_of (run deflate args inputs)).
Proof.
  apply Forall_forall. intros r Hin.
  apply In_nth_error in Hin. destruct Hin as [k Hk].
  apply run_rows in Hk. destruct Hk as [-> _].
  cbn [read_row row_name]. apply name_of_spaceless.
Qed.





Lemma combine_app_front (inputs tails : list Scanner) :
  List.length tails = List.length inputs ->
  Forall2 (fun s s' => exists t, s' = s ++ t) inputs (appended inputs tails).
Proof.
  unfold appended. revert tails.
  induction inputs as [|s inputs IH]; intros [|t tails] H; cbn in *;
    try discriminate; constructor.
  - exists t. reflexivity.
  - apply IH. lia.
Qed.

Lemma line_ok_appended args inputs inputs' m :
  Forall2 (fun s s' => exists t, s' = s ++ t) inputs inputs' ->
  line_ok args inputs m -> line_ok args inputs' m.
Proof.
  intros HF [Hlen Hhead].
  assert (Hall : Forall2 (fun s s' => (m < List.length s')%nat /\
                                      line_at s' m = line_at s m)
                         inputs inputs').
  { clear Hhead. induction HF as [|s s' a b [t ->] HF IH]; constructor.
    - specialize (Hlen s (or_introl eq_refl)).
      rewrite length_app. split; [lia|]. unfold line_at.
      apply app_nth1. exact Hlen.
    - apply IH. intros x Hx. apply Hlen. right. exact Hx. }
  split.
  - intros s' Hs'. clear Hhead Hlen HF.
    induction Hall as [|s s0 a b [H1 _] _ IH]; [contradiction|].
    destruct Hs' as [<-|Hs']; [exact H1 | apply IH; exact Hs'].
  - intros P0. specialize (Hhead P0). destruct Hhead as [Hsig Hrest].
    destruct Hall as [|s s' a b [_ H1] Hall]; cbn [hd tl] in *.
    + split; [exact Hsig | intros ? []].
    + rewrite H1. split; [exact Hsig|].
      intros x Hx. clear HF Hlen Hsig.
      induction Hall as [|y y' a' b' [_ H2] _ IH]; [contradiction|].
      destruct Hx as [<-|Hx].
      * rewrite H2. apply Hrest. left. reflexivity.
      * apply IH; [|exact Hx]. intros z Hz. apply Hrest. right. exact Hz.
Qed.

Lemma read_row_appended deflate inputs inputs' (k : nat) :
  Forall2 (fun s s' => exists t, s' = s ++ t) inputs inputs' ->
  (forall s, In s inputs -> (4 * k + 1 < List.length s)%nat) ->
  read_row deflate inputs' k = read_row deflate inputs k.
Proof.
  intros HF Hlen.
  assert (Hseq : seq_lines inputs' k = seq_lines inputs k).
  { unfold seq_lines. clear -HF Hlen.
    induction HF as [|s s' a b [t ->] _ IH]; [reflexivity|]. cbn [map].
    f_equal.
    - unfold line_at. apply app_nth1. apply Hlen. left. reflexivity.
    - apply IH. intros x Hx. apply Hlen. right. exact Hx. }
  assert (Hhd : line_at (hd [] inputs') (4 * k) =
                line_at (hd [] inputs) (4 * k)).
  { destruct HF as [|s s' a b [t ->] _]; [reflexivity|]. cbn [hd].
    unfold line_at. apply app_nth1.
    specialize (Hlen s (or_introl eq_refl)). lia. }
  unfold read_row. rewrite Hseq, Hhd. reflexivity.
Qed.

(** X14: The loop works on line: lines appended to the inputs never change a
    row already printed.  The rows of a run are the first rows of the run,
    under the same flags, on the inputs with more lines after them. *)
Theorem appended_lines_keep_rows deflate args inputs tails :
  List.length tails = List.length inputs ->
  exists more,
    rows_of (run deflate args (appended inputs tails)) =
    rows_of (run deflate args inputs) ++ more.
Proof.
  intros Hlen. pose proof (combine_app_front inputs tails Hlen) as HF.
  destruct inputs as [|s0 others] eqn:Ei.
  { destruct tails; [|discriminate]. exists []. now rewrite app_nil_r. }
  rewrite <- Ei in *.
  assert (Hne : inputs <> []) by (rewrite Ei; discriminate).
  assert (Hne' : appended inputs tails <> []).
  { intros E. rewrite E in HF. inversion HF. congruence. }
  destruct (run_stop_index deflate args inputs Hne)
    as (o & st & mf & Hrun & I & _ & Hbef & _).
  assert (Hbef' : forall j, (j < mf)%nat ->
            within_limit args j /\ line_ok args (appended inputs tails) j).
  { intros j Hj. destruct (Hbef j Hj) as [H1 H2]. split; [exact H1|].
    eapply line_ok_appended; eassumption. }
  destruct (run_reaches deflate args _ mf Hne' Hbef')
    as (o' & st' & mf' & Hrun' & I' & Hle).
  rewrite Hrun, Hrun'. cbn [rows_of].
  rewrite (inv_output _ _ _ _ I), (inv_output _ _ _ _ I').
  pose proof (rows_before_mono mf mf' Hle) as Hrb.
  exists (map (read_row deflate (appended inputs tails))
              (seq (rows_before mf) (rows_before mf' - rows_before mf))).
  replace (rows_before mf') with
    (rows_before mf + (rows_before mf' - rows_before mf))%nat at 1 by lia.
  rewrite seq_app, map_app. cbn [Nat.add]. f_equal.
  apply map_ext_in. intros k Hk. apply in_seq in Hk.
  apply read_row_appended; [exact HF|].
  intros s Hs. pose proof (inv_bound _ _ _ _ I s Hs) as Hb.
  unfold rows_before in Hk.
  pose proof (Nat.div_mod_eq (mf + 2) 4).
  pose proof (Nat.mod_upper_bound (mf + 2) 4). lia.
Qed.

Lemma appended_lines_keep_rows_witness :
  exists more,
    rows_of (run Zlib.stored defaults
               (appended [pair_first; cut_after_sequence]
                         [["@r2"; "GG"]; ["+"; "IIII"; "@r2"; "CC"]])) =
    rows_of (run Zlib.stored defaults [pair_first; cut_after_sequence])
      ++ more.
Proof.
  apply (appended_lines_keep_rows Zlib.stored defaults
           [pair_first; cut_after_sequence]
           [["@r2"; "GG"]; ["+"; "IIII"; "@r2"; "CC"]]).
  reflexivity.
Defined.

Lemma on_line_flags a b i line st :
  CheckNames a = CheckNames b -> on_line a i line st = on_line b i line st.
Proof. intros H. unfold on_line. rewrite H. reflexivity. Qed.

Lemma scan_from_flags a b scs :
  CheckNames a = CheckNames b ->
  forall i st, scan_from a i scs st = scan_from b i scs st.
Proof.
  intros H. induction scs as [|sc rest IH]; intros i st; [reflexivity|].
  cbn [scan_from]. destruct (Scan sc) as [[line sc']|]; [|reflexivity].
  rewrite (on_line_flags a b _ _ _ H).
  destruct (on_line b i line st) as [st'|o]; [|reflexivity].
  rewrite IH. reflexivity.
Qed.

(** X15: Of the flags a run looks at [-check] and at [-limit], and at the limit
    only when it is positive: a negative limit is no limit, as 0 is, and
    [-out] changes nothing of what is computed. *)
Theorem run_looks_at_two_flags deflate a b inputs :
  CheckNames a = CheckNames b ->
  Limit a = Limit b \/ (Limit a <= 0 /\ Limit b <= 0) ->
  run deflate a inputs = run deflate b inputs.
Proof.
  intros Hc Hl.
  assert (Hlim : forall n, (0 <? Limit a) && (Limit a <=? n) =
                           (0 <? Limit b) && (Limit b <=? n)).
  { intros n. destruct Hl as [->|[Ha Hb]]; [reflexivity|].
    destruct (Z.ltb_spec 0 (Limit a)); [lia|].
    destruct (Z.ltb_spec 0 (Limit b)); [lia|]. reflexivity. }
  assert (Hit : forall st, iteration deflate a st = iteration deflate b st).
  { intros st. rewrite !iteration_unfold, Hlim.
    rewrite (scan_from_flags a b _ Hc). reflexivity. }
  unfold run. generalize (initial inputs). generalize (enough inputs).
  intros fuel. induction fuel as [|fuel IH]; intros st; [reflexivity|].
  cbn [loop]. rewrite Hit.
  destruct (iteration deflate b st); [apply IH | reflexivity].
Qed.

Lemma run_looks_at_two_flags_witness :
  run Zlib.stored
      {| OutFilename := "rows.tsv.gz"; Limit := -3; CheckNames := false |}
      [five_reads] =
  run Zlib.stored defaults [five_reads].
Proof.
  apply run_looks_at_two_flags; [reflexivity|].
  right. split; vm_compute; discriminate.
Defined.

(** X16: A run that the limit stopped reports two lines fewer than the reads
    it printed have: with [Limit] rows printed under a positive limit the
    closing message says [4 * Limit - 2] lines. *)
Theorem processed_under_limit deflate args inputs st :
  run deflate args inputs = Some (Done, st) ->
  0 < Limit args ->
  Z.of_nat (List.length (output st)) = Limit args ->
  line_num st = 4 * Limit args - 2 /\
  Println_processed st =
    ("processed " ++ fmt_d (4 * Limit args - 2) ++ " lines" ++ LF)%string.
Proof.
  intros Hrun Hpos Hrows.
  assert (Hne : inputs <> []).
  { intros Hnil.
    pose proof (run_no_input_outcome deflate args inputs Hnil) as H.
    rewrite Hrun in H. discriminate. }
  destruct (run_stop_index deflate args inputs Hne)
    as (o & st' & mf & Hrun' & I & _ & Hbef & _).
  rewrite Hrun in Hrun'. inversion Hrun'; subst o st'. clear Hrun'.
  rewrite (length_rows _ _ _ _ I) in Hrows.
  assert (Hmf : Z.of_nat mf = 4 * Limit args - 2).
  { destruct mf as [|mf'].
    - unfold rows_before in Hrows. cbn in Hrows. lia.
    - destruct (Hbef mf' ltac:(lia)) as [[Hl|Hl] _]; [lia|].
      unfold rows_before in *.
      pose proof (Nat.div_mod_eq (mf' + 2) 4).
      pose proof (Nat.mod_upper_bound (mf' + 2) 4).
      pose proof (Nat.div_mod_eq (S mf' + 2) 4).
      pose proof (Nat.mod_upper_bound (S mf' + 2) 4). lia. }
  assert (Hln : line_num st = 4 * Limit args - 2)
    by (rewrite (inv_line_num _ _ _ _ I); exact Hmf).
  split; [exact Hln|]. unfold Println_processed. rewrite Hln. reflexivity.
Qed.

Lemma processed_under_limit_witness :
  exists st,
    run Zlib.stored limit_two [five_reads] = Some (Done, st) /\
    line_num st = 4 * Limit limit_two - 2 /\
    Println_processed st = ("processed 6 lines" ++ LF)%string.
Proof.
  assert (H : exists st,
             run Zlib.stored limit_two [five_reads] = Some (Done, st) /\
             Z.of_nat (List.length (output st)) = Limit limit_two).
  { eexists. split; vm_compute; reflexivity. }
  destruct H as (st & Hrun & Hrows).
  destruct (processed_under_limit Zlib.stored limit_two [five_reads] st
              Hrun ltac:(reflexivity) Hrows) as [H1 H2].
  exists st. split; [exact Hrun | split; [exact H1 | exact H2]].
Defined.

End RunProperties.

(** ** Facts about the two file wrappers *)

Module FileFacts.

Import Files.

Lemma remove_absent (n : nat) (l : list nat) :
  ~ In n l -> remove Nat.eq_dec n l = l.
Proof. intros H. apply notin_remove. exact H. Qed.

Lemma sound_fresh (s : os) : sound s = true -> ~ In (count s) (opened s).
Proof.
  unfold sound. rewrite forallb_forall. intros H Hin.
  specialize (H _ Hin). apply Nat.ltb_lt in H. lia.
Qed.

(** Closing the file just made leaves open what was open before. *)
Lemma Close_fresh fn (s : os) :
  sound s = true ->
  File_Close (Some (fst (fresh fn s))) (snd (fresh fn s)) =
    (None, {| opened := opened s; count := S (count s) |}).
Proof.
  intros Hs. unfold File_Close, fresh. cbn [fst snd id opened count existsb].
  rewrite Nat.eqb_refl. cbn [orb remove].
  destruct (Nat.eq_dec (count s) (count s)) as [_|N]; [|congruence].
  rewrite remove_absent by (apply sound_fresh; exact Hs). reflexivity.
Qed.

Lemma Close_closed (f : File) (s : os) :
  ~ In (id f) (opened s) -> File_Close (Some f) s = (Some ErrClosed, s).
Proof.
  intros H. unfold File_Close.
  destruct (existsb (Nat.eqb (id f)) (opened s)) eqn:E; [|reflexivity].
  apply existsb_exists in E. destruct E as (n & Hn & E).
  apply Nat.eqb_eq in E. subst n. contradiction.
Qed.

(** X17: A reader opens once.  After an [Open] that returned nil every later
    [Open], on whatever name, returns the already-open error, and changes
    neither the reader nor the files; [Close] does not undo this, since it
    leaves the reader as it is. *)
Theorem reader_opens_once d a fn s a' s' :
  AmbiReader.Open d a fn s = (None, a', s') ->
  forall d2 fn2 s2,
    AmbiReader.Open d2 a' fn2 s2 =
      (Some (Errorf "AmbiReader already open"), a', s2).
Proof.
  unfold AmbiReader.Open at 1. intros H d2 fn2 s2.
  assert (Hr : AmbiReader.r a' <> None).
  { destruct (AmbiReader.r a); [discriminate|].
    destruct (fn =? "")%string; [inversion H; discriminate|].
    destruct (os_Open d fn s) as [[err|f] s1]; [discriminate|].
    destruct (HasSuffix fn ".gz").
    - destruct (gzip_NewReader d f); [discriminate|].
      inversion H; discriminate.
    - inversion H; discriminate. }
  unfold AmbiReader.Open. destruct (AmbiReader.r a'); [reflexivity|].
  congruence.
Qed.

Lemma reader_opens_once_witness :
  exists a' s',
    AmbiReader.Open two_files AmbiReader.zero "b.fq.gz" at_start =
      (None, a', s') /\
    AmbiReader.Open two_files a' "a.fq" (snd (AmbiReader.Close a' s')) =
      (Some (Errorf "AmbiReader already open"), a',
       snd (AmbiReader.Close a' s')).
Proof.
  eexists. eexists. split; [vm_compute; reflexivity|].
  eapply (reader_opens_once two_files AmbiReader.zero "b.fq.gz" at_start).
  vm_compute. reflexivity.
Defined.

(** X18: [Open] on a new reader followed by [Close] leaves open exactly the
    files that were open before, however the [Open] went: on standard
    input, on a path that does not open, on a [.gz] path without a gzip
    header, whose file [Open] leaves open, and on success. *)
Theorem reader_open_close_balanced d fn s :
  sound s = true ->
  let '(_, a', s') := AmbiReader.Open d AmbiReader.zero fn s in
  opened (snd (AmbiReader.Close a' s')) = opened s.
Proof.
  intros Hs. unfold AmbiReader.Open, AmbiReader.zero.
  cbn [AmbiReader.r AmbiReader.fp AmbiReader.gz].
  destruct (fn =? "")%string; [reflexivity|].
  unfold os_Open. destruct (readable d fn); [|reflexivity].
  pose proof (Close_fresh fn s Hs) as Hc.
  destruct (fresh fn s) as [f s1]. cbn [fst snd] in Hc.
  destruct (HasSuffix fn ".gz").
  - destruct (gzip_NewReader d f) as [err|g] eqn:Eg;
      unfold AmbiReader.Close;
      cbn [AmbiReader.r AmbiReader.fp AmbiReader.gz].
    + rewrite Hc. reflexivity.
    + unfold gzip_NewReader in Eg.
      destruct (gzipped d (name f)); [|discriminate].
      inversion Eg; subst g. cbn [pending]. rewrite Hc. reflexivity.
  - unfold AmbiReader.Close.
    cbn [AmbiReader.r AmbiReader.fp AmbiReader.gz].
    rewrite Hc. reflexivity.
Qed.

Lemma reader_open_close_balanced_witness :
  let '(e, a', s') :=
    AmbiReader.Open two_files AmbiReader.zero "c.gz" at_start in
  e = Some ErrHeader /\ opened s' = [3; 2; 1; 0]%nat /\
  opened (snd (AmbiReader.Close a' s')) = opened at_start.
Proof.
  pose proof (reader_open_close_balanced two_files "c.gz" at_start
                eq_refl) as H.
  destruct (AmbiReader.Open two_files AmbiReader.zero "c.gz" at_start)
    as [[e a'] s'] eqn:E.
  vm_compute in E. inversion E; subst e a' s'.
  split; [reflexivity | split; [reflexivity | exact H]].
Defined.

(** X19: Of the readers that opened, those on standard input and no others
    hold no file: [Close] returns [ErrInvalid] exactly when the name was
    empty, and then it closes nothing, so standard input stays open. *)
Theorem reader_close_invalid_iff_stdin d fn s a' s' :
  sound s = true ->
  AmbiReader.Open d AmbiReader.zero fn s = (None, a', s') ->
  (fst (AmbiReader.Close a' s') = Some ErrInvalid <-> fn = "") /\
  (fn = "" -> AmbiReader.Close a' s' = (Some ErrInvalid, s)).
Proof.
  intros Hs. unfold AmbiReader.Open, AmbiReader.zero.
  cbn [AmbiReader.r AmbiReader.fp AmbiReader.gz].
  destruct (String.eqb_spec fn "") as [->|Hfn].
  - intros H. inversion H; subst a' s'. cbn. split; [split|]; reflexivity.
  - unfold os_Open. destruct (readable d fn); [|discriminate].
    pose proof (Close_fresh fn s Hs) as Hc.
    unfold fresh in *. cbn [fst snd] in Hc.
    assert (Hno : forall a' s',
              AmbiReader.Close a' s' =
                (None, {| opened := opened s; count := S (count s) |}) ->
              (fst (AmbiReader.Close a' s') = Some ErrInvalid <-> fn = "") /\
              (fn = "" -> AmbiReader.Close a' s' = (Some ErrInvalid, s))).
    { intros a0 s0 E. rewrite E. cbn [fst].
      split; [split; [discriminate | contradiction] | contradiction]. }
    destruct (HasSuffix fn ".gz").
    + unfold gzip_NewReader. cbn [name].
      destruct (gzipped d fn); [|discriminate].
      intros H. inversion H; subst a' s'. clear H. apply Hno.
      unfold AmbiReader.Close.
      cbn [AmbiReader.r AmbiReader.fp AmbiReader.gz pending]. exact Hc.
    + intros H. inversion H; subst a' s'. clear H. apply Hno.
      unfold AmbiReader.Close.
      cbn [AmbiReader.r AmbiReader.fp AmbiReader.gz pending]. exact Hc.
Qed.

Lemma reader_close_invalid_iff_stdin_witness :
  exists a',
    AmbiReader.Open two_files AmbiReader.zero "" at_start =
      (None, a', at_start) /\
    AmbiReader.Close a' at_start = (Some ErrInvalid, at_start).
Proof.
  assert (H : exists a',
             AmbiReader.Open two_files AmbiReader.zero "" at_start =
               (None, a', at_start)).
  { eexists. vm_compute. reflexivity. }
  destruct H as (a' & H).
  destruct (reader_close_invalid_iff_stdin two_files "" at_start a' at_start
              eq_refl H) as [_ H2].
  exists a'. split; [exact H | exact (H2 eq_refl)].
Defined.

(** X20: [Close] twice: what the first closed the second finds closed.  After
    an [Open] of a path that returned nil the first [Close] returns nil and
    the second the error of a closed file, the fields not having been
    reset. *)
Theorem reader_close_twice d fn s a' s' :
  sound s = true -> fn <> "" ->
  AmbiReader.Open d AmbiReader.zero fn s = (None, a', s') ->
  exists s'',
    AmbiReader.Close a' s' = (None, s'') /\
    AmbiReader.Close a' s'' = (Some ErrClosed, s'').
Proof.
  intros Hs Hfn. unfold AmbiReader.Open, AmbiReader.zero.
  cbn [AmbiReader.r AmbiReader.fp AmbiReader.gz].
  destruct (String.eqb_spec fn "") as [->|_]; [congruence|].
  unfold os_Open. destruct (readable d fn); [|discriminate].
  pose proof (Close_fresh fn s Hs) as Hc.
  pose proof (sound_fresh s Hs) as Hf.
  unfold fresh in *. cbn [fst snd] in Hc.
  assert (Hcc : File_Close (Some {| id := count s; name := fn |})
                  {| opened := opened s; count := S (count s) |} =
                (Some ErrClosed,
                 {| opened := opened s; count := S (count s) |})).
  { apply Close_closed. exact Hf. }
  destruct (HasSuffix fn ".gz").
  - unfold gzip_NewReader. cbn [name].
    destruct (gzipped d fn); [|discriminate].
    intros H. inversion H; subst a' s'. clear H.
    unfold AmbiReader.Close.
    cbn [AmbiReader.r AmbiReader.fp AmbiReader.gz pending].
    eexists. split; [exact Hc | exact Hcc].
  - intros H. inversion H; subst a' s'. clear H.
    unfold AmbiReader.Close.
    cbn [AmbiReader.r AmbiReader.fp AmbiReader.gz pending].
    eexists. split; [exact Hc | exact Hcc].
Qed.

Lemma reader_close_twice_witness :
  exists a' s' s'',
    AmbiReader.Open two_files AmbiReader.zero "a.fq" at_start =
      (None, a', s') /\
    AmbiReader.Close a' s' = (None, s'') /\
    AmbiReader.Close a' s'' = (Some ErrClosed, s'').
Proof.
  assert (H : exists a' s',
             AmbiReader.Open two_files AmbiReader.zero "a.fq" at_start =
               (None, a', s')).
  { eexists. eexists. vm_compute. reflexivity. }
  destruct H as (a' & s' & H).
  destruct (reader_close_twice two_files "a.fq" at_start a' s'
              eq_refl ltac:(discriminate) H) as (s'' & H1 & H2).
  exists a', s', s''. auto.
Defined.

(** X21: A writer opens once, and [Stdout] counts as opening: after [Stdout],
    or after an [Open] that returned nil, every [Open] returns the
    already-open error and changes neither the writer nor the files. *)
Theorem writer_opens_once d a fn s a' s' :
  a' = AmbiWriter.Stdout a \/ AmbiWriter.Open d a fn s = (None, a', s') ->
  forall d2 fn2 s2,
    AmbiWriter.Open d2 a' fn2 s2 =
      (Some (Errorf "AmbiWriter already open"), a', s2).
Proof.
  intros H d2 fn2 s2.
  assert (Hr : AmbiWriter.r a' <> None).
  { destruct H as [->|H]; [discriminate|].
    unfold AmbiWriter.Open in H.
    destruct (AmbiWriter.r a); [discriminate|].
    destruct (fn =? "")%string; [inversion H; discriminate|].
    destruct (os_Create d fn s) as [[err|f] s1]; [discriminate|].
    destruct (HasSuffix fn ".gz"); inversion H; discriminate. }
  unfold AmbiWriter.Open. destruct (AmbiWriter.r a'); [reflexivity|].
  congruence.
Qed.

Lemma writer_opens_once_witness :
  AmbiWriter.Open two_files (AmbiWriter.Stdout AmbiWriter.zero) "out.tsv"
    at_start =
  (Some (Errorf "AmbiWriter already open"),
   AmbiWriter.Stdout AmbiWriter.zero, at_start).
Proof.
  apply (writer_opens_once two_files AmbiWriter.zero "" at_start
           (AmbiWriter.Stdout AmbiWriter.zero) at_start).
  left. reflexivity.
Defined.

(** X22: [Open] on a new writer followed by [Close] leaves open exactly the
    files that were open before, whether the path was created, could not
    be created, or was empty. *)
Theorem writer_open_close_balanced d fn s :
  sound s = true ->
  let '(_, a', s') := AmbiWriter.Open d AmbiWriter.zero fn s in
  opened (snd (AmbiWriter.Close a' s')) = opened s.
Proof.
  intros Hs. unfold AmbiWriter.Open, AmbiWriter.zero.
  cbn [AmbiWriter.r AmbiWriter.fp AmbiWriter.gz].
  destruct (fn =? "")%string; [reflexivity|].
  unfold os_Create. destruct (creatable d fn); [|reflexivity].
  pose proof (Close_fresh fn s Hs) as Hc.
  destruct (fresh fn s) as [f s1]. cbn [fst snd] in Hc.
  destruct (HasSuffix fn ".gz"); unfold AmbiWriter.Close;
    cbn [AmbiWriter.r AmbiWriter.fp AmbiWriter.gz gzip_NewWriter pending];
    rewrite Hc; reflexivity.
Qed.

Lemma writer_open_close_balanced_witness :
  let '(e, a', s') :=
    AmbiWriter.Open two_files AmbiWriter.zero "out.tsv" at_start in
  e = None /\ opened s' = [3; 2; 1; 0]%nat /\
  opened (snd (AmbiWriter.Close a' s')) = opened at_start.
Proof.
  pose proof (writer_open_close_balanced two_files "out.tsv" at_start
                eq_refl) as H.
  destruct (AmbiWriter.Open two_files AmbiWriter.zero "out.tsv" at_start)
    as [[e a'] s'] eqn:E.
  vm_compute in E. inversion E; subst e a' s'.
  split; [reflexivity | split; [reflexivity | exact H]].
Defined.

End FileFacts.
